(** * bench-worker-fly: the benchmark analysis engine

    A shallow embedding of [src/scripts/analyze-benchmark.ts] (CSV ingestion,
    descriptive statistics, Welch's t-test, sample-size planning, comparative
    report) and of the record writer of the benchmark drivers
    ([resultToCsvRow], [doFetch]), followed by the properties the design
    document states about them (C1 to C10).  The summaries, the request
    loop and [formatDuration] of the drivers are embedded as well, and
    further properties of all this code, read off the source, close the
    development (X1 onwards).

    JavaScript numbers are IEEE-754 binary64 values.  The program text is
    embedded once, over an interface [JsNumber] of the arithmetic it uses, and
    read at two instances:
    - [binary64]: Rocq's primitive floats, the arithmetic the engine runs;
      it computes, so concrete runs are evaluated with [vm_compute];
    - [xreal]: exact real arithmetic, with [None] standing for any value that
      is not a finite real (NaN, an infinity, a division by zero).  It is the
      reading in which order and analytic bounds are proved. *)

From Stdlib Require Import String Ascii DecimalString DecimalPos DecimalN.
From Stdlib Require Import ZArith List Bool Lia Reals Lra Floats.
From Stdlib Require Import Sorting.Permutation Sorting.Sorted.
Import ListNotations.

Set Implicit Arguments.

(* ================================================================= *)
(** ** Numbers *)

(** The operations on numbers that the analysed program uses. *)
Class JsNumber (num : Type) : Type := {
  of_int : Z -> num;              (* an integer literal, an array length *)
  decimal : Z -> nat -> num;      (* the decimal literal  m / 10^k *)
  NaN : num;
  plus : num -> num -> num;
  minus : num -> num -> num;
  times : num -> num -> num;
  divide : num -> num -> num;
  negate : num -> num;            (* unary minus *)
  lt : num -> num -> bool;        (* a < b; false when either side is NaN *)
  Math_abs : num -> num;
  Math_sqrt : num -> num;
  Math_exp : num -> num;
  Math_floor : num -> num;
  Math_ceil : num -> num;
  as_index : num -> option nat    (* the array index a number denotes as a
                                     property key, if it denotes one *)
}.

Declare Scope js_scope.
Delimit Scope js_scope with js.
Infix "+" := plus : js_scope.
Infix "-" := minus : js_scope.
Infix "*" := times : js_scope.
Infix "/" := divide : js_scope.
Infix "<?" := lt : js_scope.
Notation "a >? b" := (lt b a) : js_scope.

(** [Math.pow(x, k)] for a literal non-negative integer exponent [k] (the
    program only ever passes 2), as a product. *)
Fixpoint Math_pow {num} `{JsNumber num} (x : num) (k : nat) : num :=
  match k with
  | O => of_int 1
  | S k' => times x (Math_pow x k')
  end.

(* ----------------------------------------------------------------- *)
(** *** binary64 *)

Module Binary64.

Open Scope float_scope.

(** The binary64 value nearest to an integer. *)
Definition Z2float (z : Z) : float :=
  SF2Prim (binary_normalize prec emax z 0 false).

(** The integer part (towards minus infinity) of a finite value [m * 2^e]. *)
Definition floorZ (s : bool) (m : positive) (e : Z) : Z :=
  Z.shiftl (if s then Z.neg m else Z.pos m) e.

Definition floor (x : float) : float :=
  match Prim2SF x with
  | S754_finite s m e =>
      if (0 <=? e)%Z then x
      else Z2float (floorZ s m e)
  | _ => x
  end.

(** [Math.ceil(x)] is [-Math.floor(-x)], which also gives [-0] on (-1, 0). *)
Definition ceil (x : float) : float := - floor (- x).

(** An array index is an integer from 0 to 2^32 - 2; any other number used as
    a key names an ordinary property, which an array does not have. *)
Definition max_index : Z := 4294967294.

Definition index (x : float) : option nat :=
  match Prim2SF x with
  | S754_zero _ => Some O
  | S754_finite false m e =>
      if (x <=? Z2float max_index) && (floor x =? x)
      then Some (Z.to_nat (floorZ false m e)) else None
  | _ => None
  end.

(** [Math.exp] is "implementation-approximated" in the language standard,
    which only fixes its value at NaN, at the zeros and at the infinities.
    This instance reduces the argument by multiples of ln 2 and sums the
    Taylor series; the theorems below rely on none of its digits. *)
Definition ln2_hi : float := Z2float 6243314768165359 / Z2float (2 ^ 53).
Definition inv_ln2 : float := Z2float 1 / ln2_hi.

Fixpoint taylor (r : float) (k : nat) (acc : float) : float :=
  match k with
  | O => acc
  | S k' => taylor r k' (1 + r * acc / Z2float (Z.of_nat k))
  end.

Definition exp (x : float) : float :=
  match Prim2SF x with
  | S754_nan => nan
  | S754_zero _ => 1
  | S754_infinity s => if s then 0 else infinity
  | S754_finite _ _ _ =>
      if Z2float 710 <? x then infinity
      else if x <? Z2float (-746) then 0
      else
        let q := floor (x * inv_ln2 + Z2float 1 / Z2float 2) in
        let k := match Prim2SF q with
                 | S754_finite s m e => Z.shiftl (if s then Z.neg m else Z.pos m) e
                 | _ => 0%Z
                 end in
        Z.ldexp (taylor (x - q * ln2_hi) 18 1) k
  end.

#[export] Instance binary64 : JsNumber float := {
  of_int := Z2float;
  decimal m k := Z2float m / Z2float (10 ^ Z.of_nat k);
  NaN := nan;
  plus := PrimFloat.add;
  minus := PrimFloat.sub;
  times := PrimFloat.mul;
  divide := PrimFloat.div;
  negate := PrimFloat.opp;
  lt := PrimFloat.ltb;
  Math_abs := PrimFloat.abs;
  Math_sqrt := PrimFloat.sqrt;
  Math_exp := exp;
  Math_floor := floor;
  Math_ceil := ceil;
  as_index := index
}.

(** [Number.isFinite] *)
Definition isFinite (x : float) : bool :=
  match Prim2SF x with
  | S754_zero _ | S754_finite _ _ _ => true
  | _ => false
  end.

(** A zero of either sign, or NaN: what a lone value leaves once its own
    mean is taken from it. *)
Definition zeroOrNaN (x : float) : bool :=
  match Prim2SF x with
  | S754_zero _ | S754_nan => true
  | _ => false
  end.

End Binary64.
Export (hints) Binary64.

(* ----------------------------------------------------------------- *)
(** *** Exact reals *)

Module Exact.

Open Scope R_scope.

Definition xreal : Type := option R.

Definition lift1 (f : R -> R) (a : xreal) : xreal :=
  match a with Some x => Some (f x) | None => None end.

Definition lift2 (f : R -> R -> R) (a b : xreal) : xreal :=
  match a, b with Some x, Some y => Some (f x y) | _, _ => None end.

Definition xdiv (a b : xreal) : xreal :=
  match a, b with
  | Some x, Some y => if Req_dec_T y 0 then None else Some (x / y)
  | _, _ => None
  end.

Definition xsqrt (a : xreal) : xreal :=
  match a with
  | Some x => if Rlt_dec x 0 then None else Some (R_sqrt.sqrt x)
  | None => None
  end.

Definition xlt (a b : xreal) : bool :=
  match a, b with
  | Some x, Some y => if Rlt_dec x y then true else false
  | _, _ => false
  end.

Definition xindex (a : xreal) : option nat :=
  match a with
  | Some x =>
      if Req_dec_T x (IZR (Zfloor x))
      then if ((0 <=? Zfloor x) && (Zfloor x <=? 4294967294))%Z
           then Some (Z.to_nat (Zfloor x)) else None
      else None
  | None => None
  end.

#[export] Instance exact : JsNumber xreal := {
  of_int z := Some (IZR z);
  decimal m k := Some (IZR m / IZR (10 ^ Z.of_nat k));
  NaN := None;
  plus := lift2 Rplus;
  minus := lift2 Rminus;
  times := lift2 Rmult;
  divide := xdiv;
  negate := lift1 Ropp;
  lt := xlt;
  Math_abs := lift1 Rabs;
  Math_sqrt := xsqrt;
  Math_exp := lift1 Rtrigo_def.exp;
  Math_floor := lift1 (fun x => IZR (Zfloor x));
  Math_ceil := lift1 (fun x => IZR (Zceil x));
  as_index := xindex
}.

End Exact.
Export (hints) Exact.

(* ================================================================= *)
(** ** The statistics engine ([analyze-benchmark.ts]) *)

(** Outcome of a call: it returns a value or it throws. *)
Inductive exn : Type :=
  | TypeError          (* a method call on null or undefined *)
  | InvalidInput.      (* the error the design document asks for *)

Inductive outcome (A : Type) : Type :=
  | Returned (a : A)
  | Thrown (e : exn).
Arguments Thrown {A} e.

Definition bind {A B} (o : outcome A) (k : A -> outcome B) : outcome B :=
  match o with
  | Returned a => k a
  | Thrown e => Thrown e
  end.

Notation "x <- o ;; k" := (bind o (fun x => k))
  (at level 61, o at next level, right associativity).

Section Engine.

Context {num : Type} `{JsNumber num}.
Local Open Scope js_scope.

(** What an array cell or a record field of type [number | null] holds at
    run time.  The non-null assertion [x!] of the source is erased by the
    compiler, so a [null] read from the file flows into the arithmetic. *)
Inductive value : Type :=
  | Num (x : num)
  | Null
  | Undefined.

Definition ToNumber (v : value) : num :=
  match v with
  | Num x => x
  | Null => of_int 0
  | Undefined => NaN
  end.

Definition is_undefined (v : value) : bool :=
  match v with Undefined => true | _ => false end.

(** [xs[i]] for a number [i]. *)
Definition get (xs : list value) (i : num) : value :=
  match as_index i with
  | Some k => nth k xs Undefined
  | None => Undefined
  end.

Definition len {A} (xs : list A) : num := of_int (Z.of_nat (length xs)).

(** [Array.prototype.sort(comparefn)]: a stable sort; [y] goes before [x]
    exactly when [comparefn(x, y) > 0] (a NaN result counts as 0). *)
Fixpoint insert {A} (comparefn : A -> A -> num) (x : A) (l : list A) : list A :=
  match l with
  | [] => [x]
  | y :: l' =>
      if comparefn x y >? of_int 0 then y :: insert comparefn x l'
      else x :: y :: l'
  end.

Definition Array_sort {A} (comparefn : A -> A -> num) (xs : list A) : list A :=
  fold_right (insert comparefn) [] xs.

(** On an array of values, [undefined] cells are not handed to the
    comparison function: they are moved to the end. *)
Definition sort_numeric (values : list value) : list value :=
  Array_sort (fun a b => ToNumber a - ToNumber b)
             (filter (fun v => negb (is_undefined v)) values)
  ++ filter is_undefined values.

(** [values.reduce((a, b) => a + b, 0)] *)
Definition sum (values : list value) : num :=
  fold_left (fun a b => a + ToNumber b) values (of_int 0).

(** [values.reduce((sum, val) => sum + Math.pow(val - mean, 2), 0)] *)
Definition sum_sq_dev (values : list value) (mean : num) : num :=
  fold_left (fun acc val => acc + Math_pow (ToNumber val - mean) 2) values (of_int 0).

Record Stats : Type := {
  n : nat;
  mean : num;
  std : num;
  median : value;
  min : value;
  max : value;
  q1 : value;
  q3 : value;
  iqr : num;
  cv : num;
  se : num;
  ci95Lower : num;
  ci95Upper : num
}.

Definition zero : num := of_int 0.

Definition calculateStats (values : list value) : Stats :=
  let n := length values in
  if Nat.eqb n 0 then
    {| n := 0; mean := zero; std := zero; median := Num zero; min := Num zero;
       max := Num zero; q1 := Num zero; q3 := Num zero; iqr := zero; cv := zero;
       se := zero; ci95Lower := zero; ci95Upper := zero |}
  else
    let sorted := sort_numeric values in
    let mean := sum values / len values in
    let variance :=
      if Nat.ltb 1 n then sum_sq_dev values mean / (len values - of_int 1)
      else zero in
    let std := Math_sqrt variance in
    let median :=
      if Nat.eqb (n mod 2) 0
      then Num ((ToNumber (get sorted (len values / of_int 2 - of_int 1))
                 + ToNumber (get sorted (len values / of_int 2))) / of_int 2)
      else get sorted (Math_floor (len values / of_int 2)) in
    let q1Index := Math_floor (len values * decimal 25 2) in
    let q3Index := Math_floor (len values * decimal 75 2) in
    let q1 := get sorted q1Index in
    let q3 := get sorted q3Index in
    let iqr := ToNumber q3 - ToNumber q1 in
    let cv := if mean >? zero then (std / mean) * of_int 100 else zero in
    let se := std / Math_sqrt (len values) in
    let ci95Lower := mean - decimal 196 2 * se in
    let ci95Upper := mean + decimal 196 2 * se in
    {| n := n; mean := mean; std := std; median := median;
       min := get sorted (of_int 0);
       max := get sorted (len values - of_int 1);
       q1 := q1; q3 := q3; iqr := iqr; cv := cv; se := se;
       ci95Lower := ci95Lower; ci95Upper := ci95Upper |}.

Definition calculateRequiredSampleSize (std minDetectableDiff : num) : num :=
  let zAlpha := decimal 196 2 in
  let zBeta := decimal 84 2 in
  let n := of_int 2 * Math_pow (zAlpha + zBeta) 2 * Math_pow std 2
           / Math_pow minDetectableDiff 2 in
  Math_ceil n.

(** Standard normal CDF approximation *)
Definition normalCDF (x : num) : num :=
  let a1 := decimal 254829592 9 in
  let a2 := negate (decimal 284496736 9) in
  let a3 := decimal 1421413741 9 in
  let a4 := negate (decimal 1453152027 9) in
  let a5 := decimal 1061405429 9 in
  let p := decimal 3275911 7 in
  let sign := if x <? of_int 0 then negate (of_int 1) else of_int 1 in
  let x := Math_abs x / Math_sqrt (of_int 2) in
  let t := of_int 1 / (of_int 1 + p * x) in
  let y := of_int 1
           - (((((a5 * t + a4) * t) + a3) * t + a2) * t + a1) * t
             * Math_exp (negate x * x) in
  decimal 5 1 * (of_int 1 + sign * y).

Record TTest : Type := { t : num; df : num; pValue : num }.

(** Welch's t-test for unequal variances *)
Definition welchTTest (group1 group2 : list value) : TTest :=
  let n1 := len group1 in
  let n2 := len group2 in
  let mean1 := sum group1 / n1 in
  let mean2 := sum group2 / n2 in
  let var1 := sum_sq_dev group1 mean1 / (n1 - of_int 1) in
  let var2 := sum_sq_dev group2 mean2 / (n2 - of_int 1) in
  let se := Math_sqrt (var1 / n1 + var2 / n2) in
  let t := (mean1 - mean2) / se in
  let df := Math_pow (var1 / n1 + var2 / n2) 2
            / (Math_pow (var1 / n1) 2 / (n1 - of_int 1)
               + Math_pow (var2 / n2) 2 / (n2 - of_int 1)) in
  let pValue := of_int 2 * (of_int 1 - normalCDF (Math_abs t)) in
  {| t := t; df := df; pValue := pValue |}.

End Engine.

Arguments value num : clear implicits.
Arguments Stats num : clear implicits.
Arguments TTest num : clear implicits.

(* ================================================================= *)
(** ** Strings *)

(** A string is a sequence of code units; the model keeps the code units
    below 256 ([ascii]). *)
Module Str.

Local Open Scope string_scope.

Definition comma : ascii := ","%char.
Definition newline : ascii := "010"%char.

(** White space and line terminators, as [trim] and [parseInt] see them. *)
Definition isWhiteSpace (c : ascii) : bool :=
  let k := nat_of_ascii c in
  ((9 <=? k) && (k <=? 13))%nat || Nat.eqb k 32 || Nat.eqb k 160.

(** [s.split(sep)] for a one-character separator: never empty. *)
Fixpoint split (sep : ascii) (s : string) : list string :=
  match s with
  | EmptyString => [EmptyString]
  | String c s' =>
      if Ascii.eqb c sep then EmptyString :: split sep s'
      else match split sep s' with
           | fld :: rest => String c fld :: rest
           | [] => [String c EmptyString]
           end
  end.

(** [xs.join(sep)] *)
Definition join (sep : ascii) (xs : list string) : string :=
  String.concat (String sep EmptyString) xs.

Fixpoint trimStart (s : string) : string :=
  match s with
  | String c s' => if isWhiteSpace c then trimStart s' else s
  | EmptyString => EmptyString
  end.

Fixpoint trimEnd (s : string) : string :=
  match s with
  | EmptyString => EmptyString
  | String c s' =>
      match trimEnd s' with
      | EmptyString => if isWhiteSpace c then EmptyString else String c EmptyString
      | r => String c r
      end
  end.

Definition trim (s : string) : string := trimEnd (trimStart s).

Definition digit (c : ascii) : option (Decimal.uint -> Decimal.uint) :=
  match c with
  | "0"%char => Some Decimal.D0 | "1"%char => Some Decimal.D1
  | "2"%char => Some Decimal.D2 | "3"%char => Some Decimal.D3
  | "4"%char => Some Decimal.D4 | "5"%char => Some Decimal.D5
  | "6"%char => Some Decimal.D6 | "7"%char => Some Decimal.D7
  | "8"%char => Some Decimal.D8 | "9"%char => Some Decimal.D9
  | _ => None
  end.

(** The longest prefix of decimal digits. *)
Fixpoint digits (s : string) : Decimal.uint :=
  match s with
  | String c s' =>
      match digit c with
      | Some d => d (digits s')
      | None => Decimal.Nil
      end
  | EmptyString => Decimal.Nil
  end.

(** [String(n)] for an integer [n] of magnitude below 10^21. *)
Definition ofZ (z : Z) : string :=
  match z with
  | Z0 => "0"
  | Zpos p => DecimalString.NilEmpty.string_of_uint (Pos.to_uint p)
  | Zneg p => String "-" (DecimalString.NilEmpty.string_of_uint (Pos.to_uint p))
  end.

Definition ofBool (b : bool) : string := if b then "true" else "false".

(** Whether a code unit occurs in a string. *)
Fixpoint contains (c : ascii) (s : string) : bool :=
  match s with
  | EmptyString => false
  | String d s' => Ascii.eqb d c || contains c s'
  end.

End Str.

(** [parseInt(s, 10)]: leading white space, an optional sign, then the
    longest run of digits; NaN when there is none. *)
Definition parseInt {num} `{JsNumber num} (s : string) : num :=
  let s := Str.trimStart s in
  let '(neg, s) :=
    match s with
    | String c s' =>
        if Ascii.eqb c "-" then (true, s')
        else if Ascii.eqb c "+" then (false, s')
        else (false, s)
    | EmptyString => (false, s)
    end in
  match Str.digits s with
  | Decimal.Nil => NaN
  | d => let v := of_int (Z.of_N (N.of_uint d)) in
         if neg then negate v else v
  end.

(* ================================================================= *)
(** ** The record writer of the benchmark drivers *)

Module Driver.

Local Open Scope string_scope.

(** One observed request.  The numeric fields are a loop counter and
    differences of millisecond clock readings: integers. *)
Record BenchmarkResult : Type := {
  timestamp : string;
  facilitator : string;
  network : string;
  sampleNum : Z;
  facilitationMs : option Z;
  roundtripMs : option Z;
  success : bool;
  error : string
}.

Definition CSV_HEADER : string :=
  "timestamp,facilitator,network,sample_num,facilitation_ms,roundtrip_ms,success,error"
  ++ String Str.newline EmptyString.

(** [x ?? ""] followed by the conversion [join] applies. *)
Definition orEmpty (x : option Z) : string :=
  match x with
  | Some z => Str.ofZ z
  | None => ""
  end.

Definition resultToCsvRow (result : BenchmarkResult) : string :=
  Str.join Str.comma
    [ timestamp result; facilitator result; network result;
      Str.ofZ (sampleNum result);
      orEmpty (facilitationMs result);
      orEmpty (roundtripMs result);
      Str.ofBool (success result);
      error result ]
  ++ String Str.newline EmptyString.

(** [errorMsg.replace(/,/g, ";")], the escaping [doFetch] applies to the
    message of a failed request before it builds the result. *)
Fixpoint escapeCommas (s : string) : string :=
  match s with
  | EmptyString => EmptyString
  | String c s' =>
      String (if Ascii.eqb c Str.comma then ";"%char else c) (escapeCommas s')
  end.

(** The failure branch of [doFetch]. *)
Definition failedResult (ts fac net : string) (sample : Z) (errorMsg : string)
  : BenchmarkResult :=
  {| timestamp := ts; facilitator := fac; network := net; sampleNum := sample;
     facilitationMs := None; roundtripMs := None; success := false;
     error := escapeCommas errorMsg |}.

(** The file a driver leaves behind: [writeFileSync(CSV_HEADER)] and one
    [appendFileSync(resultToCsvRow(result))] per result. *)
Definition writeCsv (results : list BenchmarkResult) : string :=
  CSV_HEADER ++ String.concat "" (map resultToCsvRow results).

(** The per-endpoint summary of the Solana driver ([runBenchmark]):
    the successful results of an endpoint, and the times among them that
    are present ([.filter(t => t !== null)]). *)
Definition facilitatorResults (results : list BenchmarkResult) (endpoint : string)
  : list BenchmarkResult :=
  filter (fun r => String.eqb (facilitator r) endpoint && success r) results.

Definition present (times : list (option Z)) : list Z :=
  flat_map (fun t => match t with Some z => [z] | None => [] end) times.

Definition facilitationTimes (results : list BenchmarkResult) (endpoint : string) : list Z :=
  present (map facilitationMs (facilitatorResults results endpoint)).

Definition roundtripTimes (results : list BenchmarkResult) (endpoint : string) : list Z :=
  present (map roundtripMs (facilitatorResults results endpoint)).

(** Samples the tabular format can carry: text without the field separator
    or a line break, an error text that does not end in white space (the
    reader trims the end of the file), and counts that are non-negative
    integers below 2^53. *)
Definition plain (s : string) : bool :=
  negb (Str.contains Str.comma s) && negb (Str.contains Str.newline s).

Definition count (z : Z) : bool := ((0 <=? z) && (z <? 2 ^ 53))%Z.

Definition optionalCount (o : option Z) : bool :=
  match o with
  | Some z => count z
  | None => true
  end.

Definition wellFormed (r : BenchmarkResult) : bool :=
  plain (timestamp r) && plain (facilitator r) && plain (network r)
  && plain (error r) && String.eqb (Str.trimEnd (error r)) (error r)
  && count (sampleNum r)
  && optionalCount (facilitationMs r) && optionalCount (roundtripMs r).

End Driver.

(* ================================================================= *)
(** ** Ingestion and the comparative report *)

Section Report.

Context {num : Type} `{JsNumber num}.
Local Open Scope js_scope.

(** A field read from a split line: [None] is [undefined] (the line has too
    few fields). *)
Definition field : Type := option string.

Definition field_eqb (a b : field) : bool :=
  match a, b with
  | Some x, Some y => String.eqb x y
  | None, None => true
  | _, _ => false
  end.

Record BenchmarkRow : Type := {
  timestamp : field;
  facilitator : field;
  network : field;
  sampleNum : num;
  facilitationMs : value num;
  roundtripMs : value num;
  success : bool;
  error : string
}.

(** [v ? parseInt(v, 10) : null]: [undefined] and the empty string are falsy. *)
Definition parseOptional (v : field) : value num :=
  match v with
  | Some (String c s) => Num (parseInt (String c s))
  | _ => Null
  end.

Definition parseLine (line : string) : BenchmarkRow :=
  let values := Str.split Str.comma line in
  {| timestamp := nth_error values 0;
     facilitator := nth_error values 1;
     network := nth_error values 2;
     sampleNum := match nth_error values 3 with
                  | Some s => parseInt s
                  | None => NaN
                  end;
     facilitationMs := parseOptional (nth_error values 4);
     roundtripMs := parseOptional (nth_error values 5);
     success := field_eqb (nth_error values 6) (Some "true"%string);
     error := match nth_error values 7 with
              | Some (String c s) => String c s
              | _ => EmptyString
              end |}.

(** [parseCSV], as a function of the content of the file. *)
Definition parseCSV (content : string) : list BenchmarkRow :=
  let lines := Str.split Str.newline (Str.trim content) in
  map parseLine (tl lines).

(** The row that carries the fields of a driver's result. *)
Definition optionalNumber (o : option Z) : value num :=
  match o with
  | Some z => Num (of_int z)
  | None => Null
  end.

Definition toRow (r : Driver.BenchmarkResult) : BenchmarkRow :=
  {| timestamp := Some (Driver.timestamp r);
     facilitator := Some (Driver.facilitator r);
     network := Some (Driver.network r);
     sampleNum := of_int (Driver.sampleNum r);
     facilitationMs := optionalNumber (Driver.facilitationMs r);
     roundtripMs := optionalNumber (Driver.roundtripMs r);
     success := Driver.success r;
     error := Driver.error r |}.

(** [[...new Set(xs)]]: the distinct elements in order of first occurrence. *)
Fixpoint unique (xs : list field) : list field :=
  match xs with
  | [] => []
  | x :: xs' => x :: filter (fun y => negb (field_eqb x y)) (unique xs')
  end.

Record Entry : Type := {
  facilitation : Stats num;
  roundtrip : Stats num;
  data : list (value num)
}.

(** [Map.prototype.set]: an existing key keeps its position. *)
Fixpoint Map_set (m : list (field * Entry)) (k : field) (e : Entry)
  : list (field * Entry) :=
  match m with
  | [] => [(k, e)]
  | (k', e') :: m' =>
      if field_eqb k' k then (k', e) :: m' else (k', e') :: Map_set m' k e
  end.

Fixpoint Map_get (m : list (field * Entry)) (k : field) : option Entry :=
  match m with
  | [] => None
  | (k', e') :: m' => if field_eqb k' k then Some e' else Map_get m' k
  end.

(** [m.get(k)!.x]: reading a property of [undefined] throws. *)
Definition the {A} (o : option A) : outcome A :=
  match o with
  | Some a => Returned a
  | None => Thrown TypeError
  end.

(** [v.toFixed(d)] on a field that holds [v]: a method call. *)
Definition toFixed (v : value num) : outcome unit :=
  match v with
  | Num _ => Returned tt
  | _ => Thrown TypeError
  end.

Record Comparison : Type := {
  f1 : field;
  f2 : field;
  test : TTest num;
  diff : num;
  significant : bool;
  faster : option field      (* [None]: no significant difference detected *)
}.

Record Recommendation : Type := {
  difference : num;
  samples : num;
  cost : num
}.

Record Ranked : Type := {
  name : field;
  stats : Stats num
}.

Record Overlap : Type := {
  current : field;
  next : field;
  overlap : bool
}.

Record Analysis : Type := {
  totalRecords : nat;
  successful : nat;
  failed : nat;
  facilitators : list field;
  descriptive : list (field * Entry);
  comparisons : list Comparison;
  pooled : Stats num;
  recommendations : list Recommendation;
  rankings : list Ranked;
  overlaps : list Overlap
}.

Definition successfulData (data : list BenchmarkRow) : list BenchmarkRow :=
  filter success data.

Definition facilitatorData (data : list BenchmarkRow) (f : field) : list BenchmarkRow :=
  filter (fun r => field_eqb (facilitator r) f) (successfulData data).

(** The body of the loop over facilitators: statistics, then the lines
    printed for them. *)
Definition describe (data : list BenchmarkRow)
    (m : list (field * Entry)) (f : field) : outcome (list (field * Entry)) :=
  let rows := facilitatorData data f in
  let facilitationTimes := map facilitationMs rows in
  let roundtripTimes := map roundtripMs rows in
  let facilitationStats := calculateStats facilitationTimes in
  let roundtripStats := calculateStats roundtripTimes in
  let m' := Map_set m f {| facilitation := facilitationStats;
                           roundtrip := roundtripStats;
                           data := facilitationTimes |} in
  _ <- toFixed (median facilitationStats) ;;
  _ <- toFixed (q1 facilitationStats) ;;
  _ <- toFixed (q3 facilitationStats) ;;
  _ <- toFixed (median roundtripStats) ;;
  _ <- toFixed (q1 roundtripStats) ;;
  _ <- toFixed (q3 roundtripStats) ;;
  Returned m'.

Fixpoint describeAll (data : list BenchmarkRow) (m : list (field * Entry))
    (fs : list field) : outcome (list (field * Entry)) :=
  match fs with
  | [] => Returned m
  | f :: fs' => m' <- describe data m f ;; describeAll data m' fs'
  end.

Definition compare (m : list (field * Entry)) (a b : field) : outcome Comparison :=
  e1 <- the (Map_get m a) ;;
  e2 <- the (Map_get m b) ;;
  let r := welchTTest (data e1) (data e2) in
  let diff := mean (facilitation e1) - mean (facilitation e2) in
  let significant := pValue r <? decimal 5 2 in
  Returned {| f1 := a; f2 := b; test := r; diff := diff;
              significant := significant;
              faster := if significant
                        then Some (if diff <? of_int 0 then a else b)
                        else None |}.

Fixpoint compareWith (m : list (field * Entry)) (a : field) (bs : list field)
  : outcome (list Comparison) :=
  match bs with
  | [] => Returned []
  | b :: bs' =>
      c <- compare m a b ;;
      cs <- compareWith m a bs' ;;
      Returned (c :: cs)
  end.

(** The double loop [for i ... for j = i + 1 ...]. *)
Fixpoint pairwise (m : list (field * Entry)) (fs : list field)
  : outcome (list Comparison) :=
  match fs with
  | [] => Returned []
  | a :: fs' =>
      cs <- compareWith m a fs' ;;
      rest <- pairwise m fs' ;;
      Returned (cs ++ rest)
  end.

Definition recommend (pooled : Stats num) (count : num) (d : Z) : Recommendation :=
  let n := calculateRequiredSampleSize (std pooled) (of_int d) in
  {| difference := of_int d; samples := n;
     cost := n * count * decimal 10 2 |}.

Fixpoint rank (m : list (field * Entry)) (fs : list field) : outcome (list Ranked) :=
  match fs with
  | [] => Returned []
  | f :: fs' =>
      e <- the (Map_get m f) ;;
      rs <- rank m fs' ;;
      Returned ({| name := f; stats := facilitation e |} :: rs)
  end.

Fixpoint adjacent (rs : list Ranked) : list Overlap :=
  match rs with
  | a :: (b :: _) as rs' =>
      {| current := name a; next := name b;
         overlap := ci95Upper (stats a) >? ci95Lower (stats b) |} :: adjacent rs'
  | _ => []
  end.

Definition analyzeData (data : list BenchmarkRow) : outcome Analysis :=
  let ok := successfulData data in
  let facilitators := unique (map facilitator ok) in
  facilitatorStats <- describeAll data [] facilitators ;;
  comparisons <-
    (if (2 <=? length facilitators)%nat then pairwise facilitatorStats facilitators
     else Returned []) ;;
  let pooledStats := calculateStats (map facilitationMs ok) in
  let recs := map (recommend pooledStats (len facilitators))
                  [25; 50; 75; 100; 150; 200]%Z in
  unsorted <- rank facilitatorStats facilitators ;;
  let rankings :=
    Array_sort (fun a b => mean (stats a) - mean (stats b)) unsorted in
  Returned {| totalRecords := length data;
              successful := length ok;
              failed := length data - length ok;
              facilitators := facilitators;
              descriptive := facilitatorStats;
              comparisons := comparisons;
              pooled := pooledStats;
              recommendations := recs;
              rankings := rankings;
              overlaps := adjacent rankings |}.

End Report.

Arguments BenchmarkRow num : clear implicits.
Arguments Entry num : clear implicits.
Arguments Comparison num : clear implicits.
Arguments Analysis num : clear implicits.
Arguments Ranked num : clear implicits.
Arguments Recommendation num : clear implicits.

(* ================================================================= *)
(** ** The benchmark drivers *)

(** The summary statistics of the pilot drivers ([benchmark-pilot.ts],
    [benchmark-solana-pilot.ts]): no guard on a single value, none on the
    sign of the mean. *)
Module Pilot.

Section Summary.

Context {num : Type} `{JsNumber num}.
Local Open Scope js_scope.

Record Stats : Type := { mean : num; std : num; cv : num }.

Definition calculateStats (values : list (value num)) : Stats :=
  let n := length values in
  if Nat.eqb n 0 then {| mean := of_int 0; std := of_int 0; cv := of_int 0 |}
  else
    let mean := sum values / len values in
    let variance := sum_sq_dev values mean / (len values - of_int 1) in
    let std := Math_sqrt variance in
    let cv := (std / mean) * of_int 100 in
    {| mean := mean; std := std; cv := cv |}.

End Summary.

Arguments Stats num : clear implicits.

End Pilot.

(** The summary statistics of the main drivers ([benchmark-main.ts],
    [benchmark-solana-main.ts]). *)
Module Main.

Section Summary.

Context {num : Type} `{JsNumber num}.
Local Open Scope js_scope.

Record Stats : Type := {
  mean : num;
  std : num;
  median : value num;
  min : value num;
  max : value num;
  cv : num
}.

Definition calculateStats (values : list (value num)) : Stats :=
  let n := length values in
  if Nat.eqb n 0 then
    {| mean := of_int 0; std := of_int 0; median := Num (of_int 0);
       min := Num (of_int 0); max := Num (of_int 0); cv := of_int 0 |}
  else
    let sorted := sort_numeric values in
    let mean := sum values / len values in
    let variance :=
      if Nat.ltb 1 n then sum_sq_dev values mean / (len values - of_int 1)
      else of_int 0 in
    let std := Math_sqrt variance in
    let median :=
      if Nat.eqb (n mod 2) 0
      then Num ((ToNumber (get sorted (len values / of_int 2 - of_int 1))
                 + ToNumber (get sorted (len values / of_int 2))) / of_int 2)
      else get sorted (Math_floor (len values / of_int 2)) in
    let cv := if mean >? of_int 0 then (std / mean) * of_int 100 else of_int 0 in
    {| mean := mean; std := std; median := median;
       min := get sorted (of_int 0);
       max := get sorted (len values - of_int 1);
       cv := cv |}.

End Summary.

Arguments Stats num : clear implicits.

End Main.

(** The requests of the drivers and the results they record.  A run is a
    function of what the outside world answers to each request. *)
Module Bench.

Local Open Scope string_scope.

Record Endpoint : Type := {
  facilitator : string;
  network : string;
  path : string
}.

(** What a request comes to: the JSON body of the response, with its
    [elapsed] field if it has one, or an exception with its message
    ([err.message], or [String(err)]). *)
Inductive Answer : Type :=
  | Json (elapsed : option Z)
  | Throws (message : string).

(** One request as the driver observes it: [new Date().toISOString()],
    the two readings of [Date.now()], and the answer. *)
Record Exchange : Type := {
  stamp : string;
  start : Z;
  finish : Z;
  answer : Answer
}.

Definition World : Type := Endpoint -> Z -> Exchange.

Section Rounds.

Variable doFetch : Exchange -> Endpoint -> Z -> Driver.BenchmarkResult.
Variable ENDPOINTS : list Endpoint.
Variable world : World.

(** The results of one round, in the order of [ENDPOINTS]: [Promise.all]
    keeps the order of its argument, and the sequential loop follows it. *)
Definition roundResults (sample : Z) : list Driver.BenchmarkResult :=
  map (fun endpoint => doFetch (world endpoint sample) endpoint sample) ENDPOINTS.

(** [for (let sample = 1; sample <= samples; sample++)], with the results
    each round leaves in [results] and in the file: those that [keep]
    accepts. *)
Fixpoint rounds (keep : Driver.BenchmarkResult -> bool) (count : nat) (sample : Z)
  : list Driver.BenchmarkResult :=
  match count with
  | O => []
  | S count' =>
      filter keep (roundResults sample) ++ rounds keep count' (sample + 1)
  end.

End Rounds.

(** An exchange the tabular format can carry. *)
Definition tidy (x : Exchange) : bool :=
  Driver.plain (stamp x)
  && match answer x with
     | Json elapsed =>
         Driver.optionalCount elapsed && Driver.count (finish x - start x)
     | Throws errorMsg =>
         negb (Str.contains Str.newline errorMsg)
         && String.eqb (Str.trimEnd (Driver.escapeCommas errorMsg))
                       (Driver.escapeCommas errorMsg)
     end.

(** A world for the runs below: "PayAI" answers without [elapsed] on odd
    samples, the others fail on the third. *)
Definition sampleWorld : World :=
  fun endpoint sample =>
    {| stamp := "2026-01-28T10:00:00.000Z";
       start := 1000 * sample;
       finish := 1000 * sample + 700;
       answer :=
         if String.eqb (facilitator endpoint) "PayAI"
         then Json (if Z.odd sample then None else Some 640%Z)
         else if (sample =? 3)%Z then Throws "fetch failed, timeout"
              else Json (Some (if (sample =? 5)%Z then 0%Z else 420%Z)) |}.

End Bench.

(** [benchmark-solana-pilot.ts] and [benchmark-solana-main.ts] *)
Module Solana.

Import Bench.
Local Open Scope string_scope.

Definition ENDPOINTS : list Endpoint :=
  [ {| facilitator := "FareSide"; network := "solana-mainnet";
       path := "/fareside/solana-mainnet" |};
    {| facilitator := "PayAI"; network := "solana-mainnet";
       path := "/payai/solana-mainnet" |} ].

Definition PILOT_SAMPLES : Z := 10.

Definition doFetch (x : Exchange) (endpoint : Endpoint) (sampleNum : Z)
  : Driver.BenchmarkResult :=
  match answer x with
  | Json elapsed =>
      let roundtrip := (finish x - start x)%Z in
      let facilitation := elapsed in          (* json.elapsed ?? null *)
      {| Driver.timestamp := stamp x;
         Driver.facilitator := facilitator endpoint;
         Driver.network := network endpoint;
         Driver.sampleNum := sampleNum;
         Driver.facilitationMs := facilitation;
         Driver.roundtripMs := Some roundtrip;
         Driver.success := true;
         Driver.error := match facilitation with
                         | None => "elapsed field missing in response"
                         | Some _ => ""
                         end |}
  | Throws errorMsg =>
      Driver.failedResult (stamp x) (facilitator endpoint) (network endpoint)
        sampleNum errorMsg
  end.

(** [result.success && result.facilitationMs]: the time is truthy when it
    is present and not 0. *)
Definition truthy (o : option Z) : bool :=
  match o with
  | Some z => negb (z =? 0)%Z
  | None => false
  end.

(** The pilot records every result. *)
Definition runPilot (world : World) : list Driver.BenchmarkResult :=
  rounds doFetch ENDPOINTS world (fun _ => true) (Z.to_nat PILOT_SAMPLES) 1.

(** The main study records the results that succeeded with a truthy
    facilitation time. *)
Definition runBenchmark (world : World) (SAMPLES_PER_FACILITATOR : Z)
  : list Driver.BenchmarkResult :=
  rounds doFetch ENDPOINTS world
         (fun result => Driver.success result && truthy (Driver.facilitationMs result))
         (Z.to_nat SAMPLES_PER_FACILITATOR) 1.

End Solana.

(** [benchmark-pilot.ts] and [benchmark-main.ts], on the Base network *)
Module Base.

Import Bench.
Local Open Scope string_scope.

Definition ENDPOINTS : list Endpoint :=
  [ {| facilitator := "FareSide"; network := "base"; path := "/fareside/base" |};
    {| facilitator := "PayAI"; network := "base"; path := "/payai/base" |};
    {| facilitator := "Coinbase"; network := "base"; path := "/coinbase/base" |} ].

Definition PILOT_SAMPLES : Z := 10.

(** The body is taken to have its [elapsed] field; when it has none the
    field of the result is [undefined], which the writer treats as it
    treats [null]. *)
Definition doFetch (x : Exchange) (endpoint : Endpoint) (sampleNum : Z)
  : Driver.BenchmarkResult :=
  match answer x with
  | Json elapsed =>
      {| Driver.timestamp := stamp x;
         Driver.facilitator := facilitator endpoint;
         Driver.network := network endpoint;
         Driver.sampleNum := sampleNum;
         Driver.facilitationMs := elapsed;
         Driver.roundtripMs := Some (finish x - start x)%Z;
         Driver.success := true;
         Driver.error := "" |}
  | Throws errorMsg =>
      Driver.failedResult (stamp x) (facilitator endpoint) (network endpoint)
        sampleNum errorMsg
  end.

(** Both drivers record every result. *)
Definition runPilot (world : World) : list Driver.BenchmarkResult :=
  rounds doFetch ENDPOINTS world (fun _ => true) (Z.to_nat PILOT_SAMPLES) 1.

Definition runBenchmark (world : World) (SAMPLES_PER_FACILITATOR : Z)
  : list Driver.BenchmarkResult :=
  rounds doFetch ENDPOINTS world (fun _ => true) (Z.to_nat SAMPLES_PER_FACILITATOR) 1.

End Base.

(* ================================================================= *)
(** ** Durations ([formatDuration] of the main drivers) *)

(** The remainder operator [a % b]: the result has the sign of [a]. *)
Class JsRemainder (num : Type) : Type := { remainder : num -> num -> num }.

Module Binary64Remainder.

Open Scope float_scope.

(** The remainder of two finite values is exact: with both written over
    the smaller exponent it is the remainder of the integer significands. *)
Definition fmod (x y : float) : float :=
  match Prim2SF x, Prim2SF y with
  | S754_nan, _ | _, S754_nan => nan
  | S754_infinity _, _ => nan
  | _, S754_zero _ => nan
  | S754_zero _, _ => x
  | S754_finite _ _ _, S754_infinity _ => x
  | S754_finite sx mx ex, S754_finite _ my ey =>
      let e := Z.min ex ey in
      let r := Z.modulo (Z.shiftl (Z.pos mx) (ex - e)) (Z.shiftl (Z.pos my) (ey - e)) in
      if (r =? 0)%Z then (if sx then - 0 else 0)
      else SF2Prim (binary_normalize prec emax (if sx then - r else r)%Z e false)
  end.

#[export] Instance binary64_remainder : JsRemainder float := { remainder := fmod }.

End Binary64Remainder.
Export (hints) Binary64Remainder.

Module ExactRemainder.

Import Exact.
Open Scope R_scope.




End ExactRemainder.
Export (hints) ExactRemainder.

Section Duration.

Context {num : Type} `{JsNumber num} `{JsRemainder num}.
Local Open Scope js_scope.
Local Open Scope string_scope.

(** A template literal, kept as its parts: the texts between the
    placeholders and the numbers substituted for them. *)
Inductive Segment : Type :=
  | Text (s : string)
  | Value (x : num).

Definition formatDuration (ms : num) : list Segment :=
  let seconds := Math_floor (ms / of_int 1000) in
  let minutes := Math_floor (seconds / of_int 60) in
  let hours := Math_floor (minutes / of_int 60) in
  if hours >? of_int 0 then
    [ Value hours; Text "h "; Value (remainder minutes (of_int 60)); Text "m" ]
  else if minutes >? of_int 0 then
    [ Value minutes; Text "m "; Value (remainder seconds (of_int 60)); Text "s" ]
  else
    [ Value seconds; Text "s" ].

End Duration.

Arguments Segment num : clear implicits.

(* ================================================================= *)
(** ** The terms of the statements *)

(** *** The formulas of the design document *)

Section Formulas.

Context {num : Type} `{JsNumber num}.
Local Open Scope js_scope.

(** The quantities the design document names, over plain numbers.  Sums run
    left to right from 0, as binary64 addition is not associative. *)
Definition total (xs : list num) : num := fold_left plus xs (of_int 0).

Definition sampleMean (xs : list num) : num := total xs / len xs.

(** Sample variance: squared deviations from the mean, divisor [n - 1]. *)
Definition sampleVariance (xs : list num) : num :=
  total (map (fun x => Math_pow (x - sampleMean xs) 2) xs)
  / (len xs - of_int 1).

Definition standardError (a b : list num) : num :=
  Math_sqrt (sampleVariance a / len a + sampleVariance b / len b).

(** Welch-Satterthwaite degrees of freedom. *)
Definition welchSatterthwaite (a b : list num) : num :=
  let va := sampleVariance a / len a in
  let vb := sampleVariance b / len b in
  Math_pow (va + vb) 2
  / (Math_pow va 2 / (len a - of_int 1) + Math_pow vb 2 / (len b - of_int 1)).

(** Abramowitz and Stegun 7.1.26: the error function for [x >= 0], with the
    polynomial in [t = 1 / (1 + p x)] evaluated by Horner's rule. *)
Definition erfAS (x : num) : num :=
  let t := of_int 1 / (of_int 1 + decimal 3275911 7 * x) in
  of_int 1
  - ((((decimal 1061405429 9 * t + negate (decimal 1453152027 9)) * t
       + decimal 1421413741 9) * t
      + negate (decimal 284496736 9)) * t
     + decimal 254829592 9) * t
    * Math_exp (negate x * x).

(** The standard normal CDF through [erf]: [(1 + sgn z erf(|z| / sqrt 2)) / 2]. *)
Definition PhiAS (z : num) : num :=
  let sgn := if z <? of_int 0 then negate (of_int 1) else of_int 1 in
  decimal 5 1 * (of_int 1 + sgn * erfAS (Math_abs z / Math_sqrt (of_int 2))).

End Formulas.

(** *** Arrays of reals, and what the engine computes on them *)

Module OnReals.

Import Exact.
Local Open Scope R_scope.
Local Abbreviation sqrt := R_sqrt.sqrt.

(** An array of finite numbers. *)
Definition reals (xs : list R) : list (value xreal) :=
  map (fun x => Num (Some x)) xs.

(** The index [floor x] denotes. *)
Definition floorIndex (x : R) : nat := Z.to_nat (Zfloor x).


(** The constants of [normalCDF]. *)
Definition a1 : R := 254829592 / 1000000000.
Definition a2 : R := - (284496736 / 1000000000).
Definition a3 : R := 1421413741 / 1000000000.
Definition a4 : R := - (1453152027 / 1000000000).
Definition a5 : R := 1061405429 / 1000000000.
Definition p : R := 3275911 / 10000000.

(** The polynomial of Abramowitz and Stegun 7.1.26. *)
Definition poly (u : R) : R :=
  a1 * u + a2 * u ^ 2 + a3 * u ^ 3 + a4 * u ^ 4 + a5 * u ^ 5.

(** The approximation of [1 - erf x] for [x >= 0], and of the normal CDF:
    what [normalCDF] computes on a real argument. *)
Definition tail (x : R) : R := poly (1 / (1 + p * x)) * exp (- x * x).

Definition PhiR (z : R) : R :=
  (5 / 10) * (1 + (if Rlt_dec z 0 then - 1 else 1)
                  * (1 - tail (Rabs z / sqrt 2))).

(** Mean, sample variance and standard error of groups of reals. *)
Definition totalR (xs : list R) : R := fold_left Rplus xs 0.

Definition meanR (xs : list R) : R := totalR xs / INR (length xs).

Definition varianceR (xs : list R) : R :=
  totalR (map (fun x => (x - meanR xs) ^ 2) xs) / (INR (length xs) - 1).

Definition seR (a b : list R) : R :=
  sqrt (varianceR a / INR (length a) + varianceR b / INR (length b)).

End OnReals.

(** *** The report in terms of the rows *)

Section ReportTerms.

Context {num : Type} `{JsNumber num}.
Local Open Scope js_scope.

(** The facilitation times of a facilitator: the [facilitationMs] field of
    each of its successful rows, in file order. *)
Definition timesOf (data : list (BenchmarkRow num)) (f : field) : list (value num) :=
  map (@facilitationMs num) (facilitatorData data f).

Definition entryOf (data : list (BenchmarkRow num)) (f : field) : Entry num :=
  {| facilitation := calculateStats (timesOf data f);
     roundtrip := calculateStats (map (@roundtripMs num) (facilitatorData data f));
     data := timesOf data f |}.

(** The comparison of two facilitators, computed from the rows directly. *)
Definition directComparison (data : list (BenchmarkRow num)) (a b : field)
  : Comparison num :=
  let r := welchTTest (timesOf data a) (timesOf data b) in
  let d := mean (calculateStats (timesOf data a))
           - mean (calculateStats (timesOf data b)) in
  {| f1 := a; f2 := b; test := r; diff := d;
     significant := pValue r <? decimal 5 2;
     faster := if pValue r <? decimal 5 2
               then Some (if d <? of_int 0 then a else b)
               else None |}.

(** All pairs [(fs[i], fs[j])] with [i < j], in the order of the double loop. *)
Fixpoint unorderedPairs (fs : list field) : list (field * field) :=
  match fs with
  | [] => []
  | a :: fs' => map (pair a) fs' ++ unorderedPairs fs'
  end.

(** The only error a call can end in. *)
Definition throwsOnly {A} (e : exn) (o : outcome A) : Prop :=
  match o with
  | Returned _ => True
  | Thrown e' => e' = e
  end.

(** The batch without the rows of one facilitator. *)
Definition without (f : field) (data : list (BenchmarkRow num)) : list (BenchmarkRow num) :=
  filter (fun r => negb (field_eqb (facilitator r) f)) data.

(** Two runs agree on everything but the record counts. *)
Definition sameFindings (o1 o2 : outcome (Analysis num)) : Prop :=
  match o1, o2 with
  | Returned r1, Returned r2 =>
      successful r1 = successful r2
      /\ facilitators r1 = facilitators r2
      /\ descriptive r1 = descriptive r2
      /\ comparisons r1 = comparisons r2
      /\ pooled r1 = pooled r2
      /\ recommendations r1 = recommendations r2
      /\ rankings r1 = rankings r2
      /\ overlaps r1 = overlaps r2
  | Thrown e1, Thrown e2 => e1 = e2
  | _, _ => False
  end.

End ReportTerms.

(** *** The lines of the file *)

Section FileTerms.

Import Str.
Local Open Scope string_scope.

(** A record line, before its line break. *)
Definition rowLine (r : Driver.BenchmarkResult) : string :=
  join comma
    [ Driver.timestamp r; Driver.facilitator r; Driver.network r;
      ofZ (Driver.sampleNum r);
      Driver.orEmpty (Driver.facilitationMs r);
      Driver.orEmpty (Driver.roundtripMs r);
      ofBool (Driver.success r);
      Driver.error r ].

Definition headerLine : string :=
  "timestamp,facilitator,network,sample_num,facilitation_ms,roundtrip_ms,success,error".

End FileTerms.

(** *** Sample batches *)

Section Samples.

Local Open Scope string_scope.

Definition oneValue : list (value float) := [Num (of_int 5)].

Definition threeValues : list (value float) :=
  [Num (of_int 1); Num (of_int 2); Num (of_int 3)].

Definition groupA : list float := map of_int [10; 12; 11; 13]%Z.

Definition groupB : list float := map of_int [1; 2; 3]%Z.

(** A row as [parseCSV] produces it. *)
Definition sampleRow (f : string) (facilitation roundtrip : option Z) (ok : bool)
  : BenchmarkRow float :=
  {| timestamp := Some "2026-01-28T10:00:00.000Z";
     facilitator := Some f;
     network := Some "base";
     sampleNum := of_int 1;
     facilitationMs := match facilitation with
                       | Some z => Num (of_int z)
                       | None => Null
                       end;
     roundtripMs := match roundtrip with
                    | Some z => Num (of_int z)
                    | None => Null
                    end;
     success := ok;
     error := if ok then "" else "fetch failed" |}.

Definition succeeded (f : string) (facilitation roundtrip : Z) : BenchmarkRow float :=
  sampleRow f (Some facilitation) (Some roundtrip) true.

Definition failedRow (f : string) : BenchmarkRow float := sampleRow f None None false.

(** A batch in which every request to "PayAI" failed. *)
Definition oneFailing : list (BenchmarkRow float) :=
  [ succeeded "FareSide" 640 1200; failedRow "PayAI";
    succeeded "FareSide" 655 1190; failedRow "PayAI";
    succeeded "FareSide" 661 1230 ].

(** A batch in which "PayAI" has a single successful sample. *)
Definition oneSingleton : list (BenchmarkRow float) :=
  [ succeeded "FareSide" 640 1200; succeeded "PayAI" 1774 2300;
    succeeded "FareSide" 655 1190; succeeded "FareSide" 661 1230 ].

(** A batch in which one successful response carried no [elapsed] field. *)
Definition oneMissing : list (BenchmarkRow float) :=
  [ sampleRow "PayAI" None (Some 1300%Z) true; succeeded "PayAI" 100 1310;
    succeeded "PayAI" 110 1290; succeeded "PayAI" 120 1305 ].




(** A result whose error text was not passed through the escaping. *)
Definition unescaped : Driver.BenchmarkResult :=
  {| Driver.timestamp := "2026-01-28T10:00:06.000Z";
     Driver.facilitator := "Coinbase"; Driver.network := "base";
     Driver.sampleNum := 3;
     Driver.facilitationMs := None; Driver.roundtripMs := None;
     Driver.success := false; Driver.error := "fetch failed, timeout" |}.

End Samples.

(** *** More terms of the report *)

Section ComparedPairs.

Context {num : Type} `{JsNumber num}.

(** The pairs of facilitators a report compares, in the order it prints them. *)
Definition comparedPairs (r : Analysis num) : list (field * field) :=
  map (fun c => (f1 c, f2 c)) (comparisons r).

End ComparedPairs.

(** *** The summary of an array of reals *)

Module SummaryOnReals.

Import Exact OnReals.
Local Open Scope R_scope.
Local Abbreviation sqrt := R_sqrt.sqrt.







End SummaryOnReals.

(** *** Batches whose successful rows carry their times *)

Section CompleteRows.

Context {num : Type} `{JsNumber num}.

Definition isNum (v : value num) : bool :=
  match v with Num _ => true | _ => false end.

(** Every successful row has both of its times. *)
Definition complete (data : list (BenchmarkRow num)) : bool :=
  forallb (fun row => negb (success row)
                      || (isNum (facilitationMs row) && isNum (roundtripMs row)))
          data.

End CompleteRows.

Module ReportOnReals.

Import Exact OnReals.

Definition isReal (v : value xreal) : bool :=
  match v with Num (Some _) => true | _ => false end.

(** Every successful row has a facilitation time that is a finite number. *)
Definition timed (data : list (BenchmarkRow xreal)) : bool :=
  forallb (fun row => negb (success row) || isReal (facilitationMs row)) data.

(** The mean a ranked facilitator is listed with. *)
Definition meanOf (x : Ranked xreal) : R :=
  match mean (stats x) with Some m => m | None => 0%R end.

(** A row of real times. *)
Definition realRow (f : string) (facilitation roundtrip : R) (ok : bool)
  : BenchmarkRow xreal :=
  {| timestamp := Some "2026-01-28T10:00:00.000Z"%string;
     facilitator := Some f;
     network := Some "base"%string;
     sampleNum := Some 1%R;
     facilitationMs := Num (Some facilitation);
     roundtripMs := Num (Some roundtrip);
     success := ok;
     error := EmptyString |}.

Definition twoFacilitators : list (BenchmarkRow xreal) :=
  [ realRow "PayAI" 900 1500 true; realRow "FareSide" 640 1200 true;
    realRow "PayAI" 950 1400 true; realRow "FareSide" 655 1190 true ].

End ReportOnReals.

(** *** The test and the planner on reals *)

Module WelchOnReals.

Import Exact OnReals.
Local Open Scope R_scope.
Local Abbreviation sqrt := R_sqrt.sqrt.

(** The t statistic and the Welch-Satterthwaite degrees of freedom of two
    groups of reals. *)
Definition tR (a b : list R) : R := (meanR a - meanR b) / seR a b.

Definition dfR (a b : list R) : R :=
  let va := varianceR a / INR (length a) in
  let vb := varianceR b / INR (length b) in
  (va + vb) ^ 2 / (va ^ 2 / (INR (length a) - 1) + vb ^ 2 / (INR (length b) - 1)).

(** The two-tailed p-value of a statistic. *)
Definition pR (t : R) : R := tail (Rabs t / sqrt 2).


End WelchOnReals.

(** *** Counting in strings *)

Module StrTerms.

(** The number of occurrences of a code unit in a string. *)
Fixpoint occurrences (c : ascii) (s : string) : nat :=
  match s with
  | EmptyString => 0
  | String d s' => (if Ascii.eqb d c then 1 else 0) + occurrences c s'
  end.

(** Whether a string begins with a decimal digit. *)
Definition startsWithDigit (s : string) : bool :=
  match s with
  | String c _ => match Str.digit c with Some _ => true | None => false end
  | EmptyString => false
  end.

End StrTerms.

(** *** Durations in whole numbers *)

Module DurationOnReals.

Import Exact.


End DurationOnReals.

(* ================================================================= *)
(** *** The fields of a record line *)

Section CsvFields.

(** What [resultToCsvRow] writes of a result, but for the error text. *)
Definition resultToCsvFields (r : Driver.BenchmarkResult) : list string :=
  [ Driver.timestamp r; Driver.facilitator r; Driver.network r;
    Str.ofZ (Driver.sampleNum r);
    Driver.orEmpty (Driver.facilitationMs r);
    Driver.orEmpty (Driver.roundtripMs r);
    Str.ofBool (Driver.success r) ].

End CsvFields.


(** ** Facts about binary64 arithmetic *)

Module Binary64Facts.

Import Binary64.
Local Open Scope float_scope.

Lemma nan_unique (x : float) : Prim2SF x = S754_nan -> x = nan.
Proof.
  intros Hx. rewrite <- (SF2Prim_Prim2SF x), Hx. reflexivity.
Qed.

(** The decimal literals of the source denote, through [decimal], the
    binary64 values they are read as (written here in hexadecimal). *)
Lemma source_literals :
  decimal 254829592 9 = 0x1.04f20c6ec5a7ep-2
  /\ decimal 284496736 9 = 0x1.23531cc3c1469p-2
  /\ decimal 1421413741 9 = 0x1.6be1c55bae157p+0
  /\ decimal 1453152027 9 = 0x1.7401c57014c39p+0
  /\ decimal 1061405429 9 = 0x1.0fb844255a12dp+0
  /\ decimal 3275911 7 = 0x1.4f740a93d7b8cp-2
  /\ decimal 196 2 = 0x1.f5c28f5c28f5cp+0
  /\ decimal 84 2 = 0x1.ae147ae147ae1p-1
  /\ decimal 5 2 = 0x1.999999999999ap-5
  /\ decimal 10 2 = 0x1.999999999999ap-4.
Proof. vm_compute. repeat split. Qed.

Ltac by_spec :=
  unfold isFinite, zeroOrNaN;
  repeat first [ rewrite div_spec | rewrite add_spec | rewrite mul_spec
               | rewrite sub_spec | rewrite opp_spec ];
  unfold SF64div, SF64add, SF64mul, SF64sub.



(** NaN is absorbing. *)
Lemma nan_div_l (y : float) : nan / y = nan.
Proof.
  apply nan_unique. by_spec. change (Prim2SF nan) with S754_nan. reflexivity.
Qed.

Lemma nan_div_r (x : float) : x / nan = nan.
Proof.
  apply nan_unique. by_spec. change (Prim2SF nan) with S754_nan.
  destruct (Prim2SF x); reflexivity.
Qed.

Lemma nan_add_l (y : float) : nan + y = nan.
Proof.
  apply nan_unique. by_spec. change (Prim2SF nan) with S754_nan. reflexivity.
Qed.

Lemma nan_add_r (x : float) : x + nan = nan.
Proof.
  apply nan_unique. by_spec. change (Prim2SF nan) with S754_nan.
  destruct (Prim2SF x); reflexivity.
Qed.

Lemma div_eucl_mul (a b : Z) : (0 < b)%Z -> Z.div_eucl (a * b) b = (a, 0%Z).
Proof.
  intros Hb. pose proof (Z.div_mul a b) as Hq. pose proof (Z.mod_mul a b) as Hr.
  unfold Z.div, Z.modulo in Hq, Hr.
  destruct (Z.div_eucl (a * b) b) as [q r]. simpl in Hq, Hr.
  rewrite Hq, Hr by lia. reflexivity.
Qed.

(** Dividing a representable number by 1 is exact: the quotient of the
    aligned significands has no remainder, and rounding leaves it alone. *)
Lemma SFdiv_one (s : bool) (m : positive) (e : Z) :
  bounded prec emax m e = true ->
  SFdiv prec emax (S754_finite s m e) (S754_finite false 4503599627370496 (-52))
  = S754_finite s m e.
Proof.
  unfold bounded, canonical_mantissa. intros Hb.
  apply andb_true_iff in Hb as [Hc He].
  apply Z.eqb_eq in Hc. apply Z.leb_le in He.
  unfold fexp, emin in Hc.
  change prec with 53%Z in *. change emax with 1024%Z in *.
  assert (Hs : xorb s false = s) by (destruct s; reflexivity).
  unfold SFdiv, SFdiv_core_binary. rewrite Hs.
  change (Zdigits2 (Zpos 4503599627370496)) with 53%Z.
  change (Zdigits2 (Zpos m)) with (Zpos (digits2_pos m)).
  assert (Hround : binary_round_aux 53 1024 s (Zpos m) e loc_Exact = S754_finite s m e).
  { unfold binary_round_aux, shr_fexp, fexp, emin.
    change (Zdigits2 (Zpos m)) with (Zpos (digits2_pos m)).
    rewrite Hc, Z.sub_diag. cbn -[Z.sub Z.add Z.max Z.leb].
    rewrite Hc, Z.sub_diag. cbn -[Z.sub Z.add Z.max Z.leb].
    apply Z.leb_le in He. rewrite He. reflexivity. }
  set (d := Zpos (digits2_pos m)) in *.
  cbv zeta. unfold fexp, emin.
  destruct (Z.eq_dec e (-1074)) as [-> | Hne].
  - (* subnormal: the significand may be short, the exponent is the least *)
    replace (Z.min (Z.max (d + -1074 - (53 + -52) - 53) (3 - 1024 - 53)) (-1074 - -52))%Z
      with (-1074)%Z by lia.
    change (-1074 - -52 - -1074)%Z with 52%Z.
    cbv beta iota.
    rewrite Z.shiftl_mul_pow2 by lia.
    rewrite div_eucl_mul by lia.
    change (new_location 4503599627370496 0) with loc_Exact.
    exact Hround.
  - (* normal: 53 digits; the quotient carries one digit more, a zero *)
    assert (Hd : d = 53%Z) by lia.
    replace (Z.min (Z.max (d + e - (53 + -52) - 53) (3 - 1024 - 53)) (e - -52))%Z
      with (e - 1)%Z by lia.
    replace (e - -52 - (e - 1))%Z with 53%Z by lia.
    cbv beta iota.
    rewrite Z.shiftl_mul_pow2 by lia.
    replace (Zpos m * 2 ^ 53)%Z with (Zpos m~0 * 4503599627370496)%Z by lia.
    rewrite div_eucl_mul by lia.
    change (new_location 4503599627370496 0) with loc_Exact.
    unfold binary_round_aux at 1, shr_fexp at 1, fexp, emin.
    change (Zdigits2 (Zpos m~0)) with (Zpos (Pos.succ (digits2_pos m))).
    rewrite Pos2Z.inj_succ. fold d. rewrite Hd.
    replace (Z.max (Z.succ 53 + (e - 1) - 53) (3 - 1024 - 53) - (e - 1))%Z
      with 1%Z by lia.
    cbn [shr shr_record_of_loc iter_pos shr_1 shr_m loc_of_shr_record
         round_nearest_even orb].
    replace (e - 1 + 1)%Z with e by lia.
    unfold shr_fexp, fexp, emin.
    change (Zdigits2 (Zpos m)) with d.
    rewrite Hc, Z.sub_diag. cbn -[Z.sub Z.add Z.max Z.leb].
    apply Z.leb_le in He. rewrite He. reflexivity.
Qed.

Lemma div_one (x : float) : x / 1 = x.
Proof.
  apply Prim2SF_inj. rewrite div_spec. unfold SF64div.
  change (Prim2SF 1) with (S754_finite false 4503599627370496 (-52)).
  pose proof (Prim2SF_valid x) as Hv.
  destruct (Prim2SF x) as [s | s | | s m e];
    [ destruct s; reflexivity | destruct s; reflexivity | reflexivity | ].
  now apply SFdiv_one.
Qed.

(** The deviation of a single value from the mean of the group it forms,
    [x - (0 + x) / 1]: zero when [x] is finite, NaN when it is not. *)
Lemma single_deviation (x : float) : zeroOrNaN (x - (0 + x) / 1) = true.
Proof.
  rewrite div_one. by_spec.
  change (Prim2SF 0) with (S754_zero false).
  destruct (Prim2SF x) as [[] | [] | | s m e]; try reflexivity.
  cbn [SFadd SFsub]. rewrite Z.sub_diag. reflexivity.
Qed.

Lemma zeroOrNaN_square (d : float) :
  zeroOrNaN d = true -> zeroOrNaN (0 + d * (d * 1)) = true.
Proof.
  by_spec. change (Prim2SF 0) with (S754_zero false).
  change (Prim2SF 1) with (S754_finite false 4503599627370496 (-52)).
  destruct (Prim2SF d) as [[] | [] | | s m e]; try discriminate; reflexivity.
Qed.

Lemma zeroOrNaN_div_zero (x : float) : zeroOrNaN x = true -> x / 0 = nan.
Proof.
  intros Hx. apply nan_unique. revert Hx. by_spec.
  change (Prim2SF 0) with (S754_zero false).
  destruct (Prim2SF x); try discriminate; reflexivity.
Qed.



End Binary64Facts.

(* ================================================================= *)
(** ** The significance tester and the planner on degenerate input *)

Section Degenerate.

Import Binary64 Binary64Facts.
Local Open Scope float_scope.

(** The term [var / n] of a group with fewer than two values is NaN.  For
    the empty group it is [0 / (0 - 1) / 0].  For a lone value the squared
    deviation from its own mean is a zero or NaN, the variance divides it by
    [n - 1 = 0], and NaN stays NaN through the division by [n = 1]. *)
Lemma small_group_term_nan (g : list (value float)) :
  (length g < 2)%nat ->
  (sum_sq_dev g (sum g / len g) / (len g - of_int 1) / len g)%js = nan.
Proof.
  intros Hlen.
  destruct g as [| v [| w g']]; [ reflexivity | | simpl in Hlen; lia ].
  change (len [v]) with 1. change (1 - of_int 1)%js with 0.
  unfold sum, sum_sq_dev. cbn [fold_left Math_pow].
  change (@of_int float _ 0%Z) with 0. change (@of_int float _ 1%Z) with 1.
  cbn [plus minus times divide binary64].
  rewrite (@zeroOrNaN_div_zero _ (@zeroOrNaN_square _ (single_deviation (ToNumber v)))).
  apply nan_div_l.
Qed.

(** C1 (as the program behaves).  [welchTTest] has no failure path: it is a
    total function of its two arrays.  When a group has fewer than two
    elements, whatever the values, the call returns a result whose t
    statistic, degrees of freedom and p-value are all NaN. *)
Theorem welchTTest_small_group_returns_nan (group1 group2 : list (value float)) :
  (length group1 < 2)%nat \/ (length group2 < 2)%nat ->
  welchTTest group1 group2 = {| t := nan; df := nan; pValue := nan |}.
Proof.
  intros Hsmall. unfold welchTTest. cbv zeta.
  set (m1 := (sum group1 / len group1)%js).
  set (m2 := (sum group2 / len group2)%js).
  set (a := (sum_sq_dev group1 m1 / (len group1 - of_int 1) / len group1)%js).
  set (b := (sum_sq_dev group2 m2 / (len group2 - of_int 1) / len group2)%js).
  assert (Hab : (a + b)%js = nan).
  { cbn [plus binary64].
    destruct Hsmall as [H1 | H2].
    - unfold a, m1. rewrite (small_group_term_nan _ H1). apply nan_add_l.
    - unfold b, m2. rewrite (small_group_term_nan _ H2). apply nan_add_r. }
  rewrite Hab. cbn [Math_pow times divide Math_sqrt binary64].
  change (sqrt nan) with nan. change (nan * (nan * of_int 1)) with nan.
  rewrite nan_div_l, nan_div_r.
  reflexivity.
Qed.

Lemma welchTTest_small_group_returns_nan_witness :
  ((length oneValue < 2)%nat \/ (length threeValues < 2)%nat)
  /\ welchTTest oneValue threeValues = {| t := nan; df := nan; pValue := nan |}.
Proof.
  split.
  - left. simpl. lia.
  - apply (welchTTest_small_group_returns_nan oneValue threeValues).
    left. simpl. lia.
Defined.

(** C1 (as stated) fails: on a one-element group against a three-element
    group the call returns, and every field of the result is NaN. *)
Lemma welchTTest_singleton_is_not_rejected :
  welchTTest [Num (of_int 5)] [Num (of_int 1); Num (of_int 2); Num (of_int 3)]
  = {| t := nan; df := nan; pValue := nan |}.
Proof. vm_compute. reflexivity. Qed.



End Degenerate.

(* ================================================================= *)
(** ** Descriptive statistics *)

Section Descriptive.

Context {num : Type} `{JsNumber num}.

(** C8.  On the empty array [calculateStats] returns the all-zero summary. *)
Theorem calculateStats_empty :
  calculateStats [] =
  {| n := 0; mean := of_int 0; std := of_int 0; median := Num (of_int 0);
     min := Num (of_int 0); max := Num (of_int 0);
     q1 := Num (of_int 0); q3 := Num (of_int 0); iqr := of_int 0;
     cv := of_int 0; se := of_int 0;
     ci95Lower := of_int 0; ci95Upper := of_int 0 |}.
Proof. reflexivity. Qed.

End Descriptive.

(* ================================================================= *)
(** ** Welch's t-test: the formulas of the design document *)

Section WelchFormulas.

Context {num : Type} `{JsNumber num}.
Local Open Scope js_scope.

Lemma sum_numbers (xs : list num) (acc : num) :
  fold_left (fun a b => a + ToNumber b) (map (@Num num) xs) acc
  = fold_left plus xs acc.
Proof.
  revert acc. induction xs as [| x xs IH]; intros acc; simpl.
  - reflexivity.
  - apply IH.
Qed.

Lemma sum_sq_dev_numbers (xs : list num) (m acc : num) :
  fold_left (fun s val => s + Math_pow (ToNumber val - m) 2) (map (@Num num) xs) acc
  = fold_left plus (map (fun x => Math_pow (x - m) 2) xs) acc.
Proof.
  revert acc. induction xs as [| x xs IH]; intros acc; simpl.
  - reflexivity.
  - apply IH.
Qed.

Lemma len_numbers (xs : list num) : len (map (@Num num) xs) = len xs.
Proof. unfold len. now rewrite length_map. Qed.

Lemma mean_numbers (xs : list num) :
  sum (map (@Num num) xs) / len (map (@Num num) xs) = sampleMean xs.
Proof.
  unfold sum, sampleMean, total. now rewrite sum_numbers, len_numbers.
Qed.

Lemma variance_numbers (xs : list num) :
  sum_sq_dev (map (@Num num) xs) (sampleMean xs) / (len (map (@Num num) xs) - of_int 1)
  = sampleVariance xs.
Proof.
  unfold sum_sq_dev, sampleVariance, total.
  now rewrite sum_sq_dev_numbers, len_numbers.
Qed.

Lemma normalCDF_is_PhiAS (z : num) : normalCDF z = PhiAS z.
Proof. reflexivity. Qed.

(** C6.  On two groups of at least two numbers with a positive standard
    error, [welchTTest] returns the Welch statistic, the Welch-Satterthwaite
    degrees of freedom and the two-tailed p-value under the
    Abramowitz-Stegun approximation of the normal CDF. *)
Theorem welchTTest_formulas (a b : list num) :
  (2 <= length a)%nat ->
  (2 <= length b)%nat ->
  (standardError a b >? of_int 0) = true ->
  welchTTest (map (@Num num) a) (map (@Num num) b) =
  let t := (sampleMean a - sampleMean b) / standardError a b in
  {| t := t;
     df := welchSatterthwaite a b;
     pValue := of_int 2 * (of_int 1 - PhiAS (Math_abs t)) |}.
Proof.
  intros _ _ _.
  unfold welchTTest, standardError, welchSatterthwaite. cbv zeta.
  rewrite !mean_numbers, !variance_numbers, !len_numbers.
  rewrite normalCDF_is_PhiAS.
  reflexivity.
Qed.

End WelchFormulas.

Section WelchFormulasRun.

Import Binary64.

Lemma welchTTest_formulas_witness :
  (2 <= length groupA)%nat /\ (2 <= length groupB)%nat
  /\ lt (of_int 0) (standardError groupA groupB) = true
  /\ welchTTest (map (@Num float) groupA) (map (@Num float) groupB) =
     (let t := ((sampleMean groupA - sampleMean groupB)
                / standardError groupA groupB)%js in
      {| t := t;
         df := welchSatterthwaite groupA groupB;
         pValue := (of_int 2 * (of_int 1 - PhiAS (Math_abs t)))%js |}).
Proof.
  split; [ simpl; lia | ].
  split; [ simpl; lia | ].
  split; [ vm_compute; reflexivity | ].
  apply (welchTTest_formulas groupA groupB).
  - simpl; lia.
  - simpl; lia.
  - vm_compute; reflexivity.
Defined.

End WelchFormulasRun.

(* ================================================================= *)
(** ** Order statistics, in exact arithmetic *)

Module ExactFacts.

Import Exact OnReals.
Local Open Scope R_scope.

Lemma reals_length (xs : list R) : length (reals xs) = length xs.
Proof. apply length_map. Qed.







End ExactFacts.

Section OrderStatistics.

Import Exact OnReals ExactFacts.
Local Open Scope R_scope.

Lemma xdiv_some (a b : R) : b <> 0 -> xdiv (Some a) (Some b) = Some (a / b).
Proof.
  intros Hb. unfold xdiv. destruct (Req_dec_T b 0); [ contradiction | reflexivity ].
Qed.




End OrderStatistics.

(* ================================================================= *)
(** ** The p-value, in exact arithmetic *)

Module PValue.

Import Exact OnReals ExactFacts.
Local Open Scope R_scope.
Local Abbreviation sqrt := R_sqrt.sqrt.

(** *** The polynomial of the approximation on the unit interval *)

Lemma bernstein_term (u : R) (i j : nat) :
  0 <= u <= 1 -> 0 <= u ^ i * (1 - u) ^ j.
Proof. intros [H0 H1]. apply Rmult_le_pos; apply pow_le; lra. Qed.

(** The polynomial has non-negative Bernstein coefficients on [0, 1], and so
    has its complement to 1. *)
Lemma poly_nonneg (u : R) : 0 <= u <= 1 -> 0 <= poly u.
Proof.
  intros Hu. unfold poly, a1, a2, a3, a4, a5.
  pose proof (@bernstein_term u 1 4 Hu). pose proof (@bernstein_term u 2 3 Hu).
  pose proof (@bernstein_term u 3 2 Hu). pose proof (@bernstein_term u 4 1 Hu).
  pose proof (@bernstein_term u 5 0 Hu).
  nra.
Qed.

Lemma poly_le_1 (u : R) : 0 <= u <= 1 -> poly u <= 1.
Proof.
  intros Hu. unfold poly, a1, a2, a3, a4, a5.
  pose proof (@bernstein_term u 0 5 Hu). pose proof (@bernstein_term u 1 4 Hu).
  pose proof (@bernstein_term u 2 3 Hu). pose proof (@bernstein_term u 3 2 Hu).
  pose proof (@bernstein_term u 4 1 Hu). pose proof (@bernstein_term u 5 0 Hu).
  nra.
Qed.

Lemma tail_range (x : R) : 0 <= x -> 0 <= tail x <= 1.
Proof.
  intros Hx. unfold tail.
  assert (Hden : 1 <= 1 + p * x) by (unfold p; nra).
  assert (Hu : 0 <= 1 / (1 + p * x) <= 1).
  { split.
    - apply Rlt_le, Rdiv_lt_0_compat; lra.
    - apply (Rmult_le_reg_r (1 + p * x)); [ lra | ].
      unfold Rdiv. rewrite Rmult_assoc, Rinv_l by lra. lra. }
  pose proof (poly_nonneg Hu) as Hp0. pose proof (poly_le_1 Hu) as Hp1.
  assert (He : 0 < exp (- x * x) <= 1).
  { split; [ apply exp_pos | ].
    rewrite <- exp_0.
    destruct (Req_dec (- x * x) 0) as [-> | Hne]; [ lra | ].
    apply Rlt_le, exp_increasing. nra. }
  nra.
Qed.


(** The two-tailed p-value of a statistic [z]. *)
Lemma two_tailed (z : R) : 2 * (1 - PhiR (Rabs z)) = tail (Rabs z / sqrt 2).
Proof.
  unfold PhiR. rewrite Rabs_Rabsolu.
  destruct (Rlt_dec (Rabs z) 0) as [Hneg | _].
  - pose proof (Rabs_pos z). lra.
  - lra.
Qed.

Lemma sqrt2_neq_0 : sqrt 2 <> 0.
Proof. apply Rgt_not_eq, sqrt_lt_R0. lra. Qed.

Lemma normalCDF_exact (z : R) : normalCDF (Some z) = Some (PhiR z).
Proof.
  unfold normalCDF. cbv zeta.
  cbn [of_int decimal negate lt Math_abs Math_sqrt Math_exp plus minus times
       exact lift1 lift2 xsqrt xlt].
  destruct (Rlt_dec (IZR 2) 0) as [Habs | _]; [ lra | ].
  cbn [divide exact].
  rewrite (@xdiv_some (Rabs z) (sqrt 2)) by apply sqrt2_neq_0.
  cbn [lift2].
  assert (Hx : 0 <= Rabs z / sqrt 2).
  { apply Rmult_le_pos; [ apply Rabs_pos | ].
    apply Rlt_le, Rinv_0_lt_compat, sqrt_lt_R0. lra. }
  rewrite xdiv_some.
  2:{ simpl. nra. }
  unfold PhiR, tail, poly, a1, a2, a3, a4, a5, p.
  change (10 ^ Z.of_nat 9)%Z with 1000000000%Z.
  change (10 ^ Z.of_nat 7)%Z with 10000000%Z.
  change (10 ^ Z.of_nat 1)%Z with 10%Z.
  destruct (Rlt_dec z 0) as [Hz | Hz]; cbn [lift1 lift2]; f_equal;
    unfold Rdiv; ring.
Qed.

(** *** The statistics of two groups of reals *)

Lemma fold_plus_some (xs : list R) (acc : R) :
  fold_left plus (map (@Some R) xs) (Some acc) = Some (fold_left Rplus xs acc).
Proof.
  revert acc. induction xs as [| x xs IH]; intros acc; simpl; [ reflexivity | ].
  apply IH.
Qed.

Lemma len_some (A : Type) (xs : list A) : len xs = Some (INR (length xs)).
Proof. unfold len. cbn [of_int exact]. now rewrite <- INR_IZR_INZ. Qed.

Lemma sampleMean_exact (xs : list R) :
  (1 <= length xs)%nat -> sampleMean (map (@Some R) xs) = Some (meanR xs).
Proof.
  intros Hn. unfold sampleMean, total. cbn [of_int exact].
  rewrite fold_plus_some, len_some, length_map. cbn [divide exact].
  apply xdiv_some. apply not_0_INR. lia.
Qed.

Lemma sampleVariance_exact (xs : list R) :
  (2 <= length xs)%nat -> sampleVariance (map (@Some R) xs) = Some (varianceR xs).
Proof.
  intros Hn. unfold sampleVariance, total.
  rewrite sampleMean_exact by lia.
  rewrite map_map. cbn [of_int exact Math_pow minus times lift2].
  change (fun x : R => Some ((x - meanR xs) * ((x - meanR xs) * IZR 1)))
    with (fun x : R => Some ((x - meanR xs) ^ 2)).
  rewrite <- (map_map (fun x => (x - meanR xs) ^ 2) (@Some R)).
  rewrite fold_plus_some, len_some, !length_map. cbn [divide minus exact lift2].
  apply xdiv_some.
  assert (2 <= INR (length xs)) by (apply (le_INR 2); assumption).
  simpl. lra.
Qed.

Lemma fold_plus_nonneg (xs : list R) (acc : R) :
  0 <= acc -> Forall (Rle 0) xs -> 0 <= fold_left Rplus xs acc.
Proof.
  revert acc. induction xs as [| x xs IH]; intros acc Hacc Hall; simpl.
  - assumption.
  - apply Forall_cons_iff in Hall as [Hx Hxs]. apply IH; [ lra | assumption ].
Qed.

Lemma varianceR_nonneg (xs : list R) : (2 <= length xs)%nat -> 0 <= varianceR xs.
Proof.
  intros Hn. unfold varianceR, totalR.
  assert (2 <= INR (length xs)) by (apply (le_INR 2); assumption).
  apply Rmult_le_pos.
  - apply fold_plus_nonneg; [ lra | ].
    apply Forall_forall. intros y Hy. apply in_map_iff in Hy as (x & <- & _).
    apply pow2_ge_0.
  - apply Rlt_le, Rinv_0_lt_compat. lra.
Qed.

Lemma standardError_exact (a b : list R) :
  (2 <= length a)%nat -> (2 <= length b)%nat ->
  standardError (map (@Some R) a) (map (@Some R) b) = Some (seR a b).
Proof.
  intros Ha Hb. unfold standardError.
  rewrite !sampleVariance_exact, !len_some, !length_map by assumption.
  assert (2 <= INR (length a)) by (apply (le_INR 2); assumption).
  assert (2 <= INR (length b)) by (apply (le_INR 2); assumption).
  cbn [divide exact]. rewrite !xdiv_some by lra.
  cbn [plus Math_sqrt exact lift2 xsqrt].
  pose proof (@varianceR_nonneg a Ha). pose proof (@varianceR_nonneg b Hb).
  destruct (Rlt_dec _ 0) as [Hneg | _]; [ | reflexivity ].
  exfalso.
  assert (0 <= varianceR a / INR (length a))
    by (apply Rmult_le_pos; [ | apply Rlt_le, Rinv_0_lt_compat ]; lra).
  assert (0 <= varianceR b / INR (length b))
    by (apply Rmult_le_pos; [ | apply Rlt_le, Rinv_0_lt_compat ]; lra).
  lra.
Qed.

End PValue.

Section PValueRange.

Import Exact OnReals ExactFacts PValue.
Local Open Scope R_scope.

Lemma reals_as_numbers (xs : list R) : reals xs = map (@Num xreal) (map (@Some R) xs).
Proof. unfold reals. now rewrite map_map. Qed.



End PValueRange.

(* ================================================================= *)
(** ** The comparative report *)

Section ReportFacts.

Context {num : Type} `{JsNumber num}.
Local Open Scope js_scope.

Lemma field_eqb_eq (a b : field) : field_eqb a b = true <-> a = b.
Proof.
  destruct a as [x |], b as [y |]; simpl; try (split; congruence).
  rewrite String.eqb_eq. split; congruence.
Qed.

Lemma field_eqb_refl (a : field) : field_eqb a a = true.
Proof. now apply field_eqb_eq. Qed.

Lemma field_eqb_neq (a b : field) : field_eqb a b = false <-> a <> b.
Proof.
  rewrite <- field_eqb_eq. destruct (field_eqb a b); split; congruence.
Qed.

(** *** The map of per-facilitator statistics *)

Lemma Map_get_set (m : list (field * Entry num)) (k k' : field) (e : Entry num) :
  Map_get (Map_set m k e) k' = if field_eqb k k' then Some e else Map_get m k'.
Proof.
  induction m as [| [k0 e0] m IH]; simpl.
  - reflexivity.
  - destruct (field_eqb k0 k) eqn:E0; simpl.
    + apply field_eqb_eq in E0. subst k0.
      destruct (field_eqb k k'); reflexivity.
    + rewrite IH. destruct (field_eqb k0 k') eqn:E1; [ | reflexivity ].
      apply field_eqb_eq in E1. subst k0.
      destruct (field_eqb k k') eqn:E2; [ | reflexivity ].
      apply field_eqb_eq in E2. subst k'.
      rewrite field_eqb_refl in E0. discriminate.
Qed.

Lemma Map_set_keys (m : list (field * Entry num)) (k : field) (e : Entry num) (x : field) :
  In x (map fst (Map_set m k e)) -> x = k \/ In x (map fst m).
Proof.
  induction m as [| [k0 e0] m IH]; simpl.
  - intros [<- | []]. now left.
  - destruct (field_eqb k0 k); simpl.
    + intros [<- | Hin]; right; [ now left | now right ].
    + intros [<- | Hin]; [ right; now left | ].
      destruct (IH Hin) as [-> | Hm]; [ now left | right; now right ].
Qed.

Lemma describe_returns (data : list (BenchmarkRow num))
    (m m' : list (field * Entry num)) (f : field) :
  describe data m f = Returned m' -> m' = Map_set m f (entryOf data f).
Proof.
  unfold describe, entryOf, timesOf. cbv zeta.
  repeat match goal with
         | |- context [toFixed ?v] => destruct (toFixed v) as [[] | ]; simpl
         end; congruence.
Qed.

Lemma describeAll_get (data : list (BenchmarkRow num)) (fs : list field) :
  forall m0 m, describeAll data m0 fs = Returned m ->
  forall f, Map_get m f = if existsb (field_eqb f) fs
                          then Some (entryOf data f) else Map_get m0 f.
Proof.
  induction fs as [| a fs IH]; intros m0 m Hrun f; simpl in *.
  - now inversion Hrun.
  - destruct (describe data m0 a) as [m1 | e] eqn:Hd; simpl in Hrun; [ | discriminate ].
    apply describe_returns in Hd. subst m1.
    rewrite (IH _ _ Hrun f).
    destruct (existsb (field_eqb f) fs); [ now rewrite orb_true_r | ].
    rewrite orb_false_r, Map_get_set.
    destruct (field_eqb f a) eqn:E.
    + apply field_eqb_eq in E. subst a. now rewrite field_eqb_refl.
    + apply field_eqb_neq in E.
      destruct (field_eqb a f) eqn:E'; [ | reflexivity ].
      apply field_eqb_eq in E'. congruence.
Qed.

Lemma describeAll_keys (data : list (BenchmarkRow num)) (fs : list field) :
  forall m0 m, describeAll data m0 fs = Returned m ->
  forall x, In x (map fst m) -> In x fs \/ In x (map fst m0).
Proof.
  induction fs as [| a fs IH]; intros m0 m Hrun x Hx; simpl in *.
  - inversion Hrun. subst. now right.
  - destruct (describe data m0 a) as [m1 | e] eqn:Hd; simpl in Hrun; [ | discriminate ].
    apply describe_returns in Hd. subst m1.
    destruct (IH _ _ Hrun x Hx) as [Hin | Hin]; [ left; now right | ].
    apply Map_set_keys in Hin as [-> | Hin]; [ left; now left | now right ].
Qed.

Lemma existsb_field_In (f : field) (fs : list field) :
  existsb (field_eqb f) fs = true <-> In f fs.
Proof.
  rewrite existsb_exists. split.
  - intros (x & Hin & Heq). apply field_eqb_eq in Heq. now subst.
  - intros Hin. exists f. split; [ assumption | apply field_eqb_refl ].
Qed.

(** *** The pairwise comparisons *)

Section Pairs.

Variable data : list (BenchmarkRow num).
Variable m : list (field * Entry num).
Variable known : list field.
Hypothesis m_known : forall f, In f known -> Map_get m f = Some (entryOf data f).

Lemma compare_direct (a b : field) :
  In a known -> In b known -> compare m a b = Returned (directComparison data a b).
Proof.
  intros Ha Hb. unfold compare.
  rewrite (m_known a Ha), (m_known b Hb). reflexivity.
Qed.

Lemma compareWith_direct (a : field) (bs : list field) :
  In a known -> incl bs known ->
  compareWith m a bs = Returned (map (fun b => directComparison data a b) bs).
Proof.
  intros Ha. induction bs as [| b bs IH]; intros Hbs; simpl.
  - reflexivity.
  - rewrite compare_direct by (auto; apply Hbs; now left). simpl.
    rewrite IH by (intros x Hx; apply Hbs; now right). reflexivity.
Qed.

Lemma pairwise_direct (fs : list field) :
  incl fs known ->
  pairwise m fs
  = Returned (map (fun ab => directComparison data (fst ab) (snd ab))
                  (unorderedPairs fs)).
Proof.
  induction fs as [| a fs IH]; intros Hfs; simpl.
  - reflexivity.
  - rewrite compareWith_direct
      by (try (apply Hfs; now left); intros x Hx; apply Hfs; now right).
    simpl. rewrite IH by (intros x Hx; apply Hfs; now right). simpl.
    now rewrite map_app, map_map.
Qed.

Lemma rank_direct (fs : list field) :
  incl fs known ->
  rank m fs
  = Returned (map (fun f => {| name := f; stats := facilitation (entryOf data f) |}) fs).
Proof.
  induction fs as [| a fs IH]; intros Hfs; simpl.
  - reflexivity.
  - rewrite (m_known a) by (apply Hfs; now left). simpl.
    rewrite IH by (intros x Hx; apply Hfs; now right). reflexivity.
Qed.

End Pairs.

End ReportFacts.

Section ReportTheorems.

Context {num : Type} `{JsNumber num}.
Local Open Scope js_scope.

Lemma unique_In (x : field) (xs : list field) : In x (unique xs) -> In x xs.
Proof.
  induction xs as [| y xs IH]; simpl; [ easy | ].
  intros [-> | Hin]; [ now left | ].
  apply filter_In in Hin as [Hin _]. right. now apply IH.
Qed.

Lemma insert_perm (A : Type) (cmp : A -> A -> num) (x : A) (l : list A) :
  Permutation (insert cmp x l) (x :: l).
Proof.
  induction l as [| y l IH]; simpl; [ reflexivity | ].
  destruct (lt (of_int 0) (cmp x y)); [ | reflexivity ].
  rewrite IH. apply perm_swap.
Qed.

Lemma Array_sort_perm (A : Type) (cmp : A -> A -> num) (l : list A) :
  Permutation (Array_sort cmp l) l.
Proof.
  induction l as [| x l IH]; simpl; [ reflexivity | ].
  change (Array_sort cmp (x :: l)) with (insert cmp x (Array_sort cmp l)).
  rewrite insert_perm. now constructor.
Qed.

Lemma unorderedPairs_In (fs : list field) (a b : field) :
  In (a, b) (unorderedPairs fs) -> In a fs /\ In b fs.
Proof.
  induction fs as [| x fs IH]; simpl; [ easy | ].
  intros Hin. apply in_app_or in Hin as [Hin | Hin].
  - apply in_map_iff in Hin as (y & Heq & Hy). inversion Heq; subst. auto.
  - destruct (IH Hin). auto.
Qed.

(** What a run that returns has computed, in terms of the rows. *)
Lemma analyzeData_returned (data : list (BenchmarkRow num)) (r : Analysis num) :
  analyzeData data = Returned r ->
  facilitators r = unique (map (@facilitator num) (successfulData data))
  /\ (forall x, In x (map fst (descriptive r)) -> In x (facilitators r))
  /\ comparisons r
     = map (fun ab => directComparison data (fst ab) (snd ab))
           (unorderedPairs (facilitators r))
  /\ Permutation (map (@name num) (rankings r)) (facilitators r).
Proof.
  unfold analyzeData. cbv zeta.
  set (fs := unique (map (@facilitator num) (successfulData data))).
  destruct (describeAll data [] fs) as [m | e] eqn:Hm; cbn [bind]; [ | discriminate ].
  assert (Hknown : forall f, In f fs -> Map_get m f = Some (entryOf data f)).
  { intros f Hf. rewrite (@describeAll_get num _ data fs [] m Hm f).
    apply existsb_field_In in Hf. now rewrite Hf. }
  rewrite (@rank_direct num _ data m fs Hknown fs) by apply incl_refl.
  assert (Hpairs : (if (2 <=? length fs)%nat then pairwise m fs else Returned [])
                   = Returned (map (fun ab => directComparison data (fst ab) (snd ab))
                                   (unorderedPairs fs))).
  { destruct (2 <=? length fs)%nat eqn:Hlen.
    - apply (@pairwise_direct num _ data m fs Hknown fs). apply incl_refl.
    - apply Nat.leb_gt in Hlen.
      destruct fs as [| a [| b fs']]; simpl in *; try reflexivity; lia. }
  rewrite Hpairs. cbn [bind]. intros Hr. inversion Hr; subst r; clear Hr.
  cbn [facilitators descriptive comparisons rankings].
  split; [ reflexivity | ]. split; [ | split; [ reflexivity | ] ].
  - intros x Hx. destruct (@describeAll_keys num _ data fs [] m Hm x Hx) as [Hin | []]. exact Hin.
  - rewrite Array_sort_perm, map_map. simpl. now rewrite map_id.
Qed.


(** *** A facilitator without successful samples *)

Lemma successfulData_without (f : field) (data : list (BenchmarkRow num)) :
  (forall row, In row data -> facilitator row = f -> success row = false) ->
  successfulData (without f data) = successfulData data.
Proof.
  intros Hfail. unfold successfulData, without.
  induction data as [| row data IH]; simpl; [ reflexivity | ].
  assert (IH' : filter (@success num)
                  (filter (fun r => negb (field_eqb (facilitator r) f)) data)
                = filter (@success num) data)
    by (apply IH; intros; apply Hfail; auto; now right).
  destruct (field_eqb (facilitator row) f) eqn:E; simpl.
  - apply field_eqb_eq in E. rewrite (Hfail row) by (auto; now left). exact IH'.
  - now rewrite IH'.
Qed.

Lemma describeAll_ext (d1 d2 : list (BenchmarkRow num)) (fs : list field) :
  successfulData d1 = successfulData d2 ->
  forall m, describeAll d1 m fs = describeAll d2 m fs.
Proof.
  intros Heq. induction fs as [| f fs IH]; intros m; simpl; [ reflexivity | ].
  assert (Hd : describe d1 m f = describe d2 m f)
    by (unfold describe, facilitatorData; now rewrite Heq).
  rewrite Hd. destruct (describe d2 m f); simpl; [ apply IH | reflexivity ].
Qed.

Lemma analyzeData_ext (d1 d2 : list (BenchmarkRow num)) :
  successfulData d1 = successfulData d2 ->
  sameFindings (analyzeData d1) (analyzeData d2).
Proof.
  intros Heq. unfold analyzeData. cbv zeta.
  rewrite (@describeAll_ext d1 d2 _ Heq), Heq.
  destruct (describeAll d2 _ _) as [m | e]; cbn [bind]; [ | reflexivity ].
  match goal with
  | |- sameFindings (bind ?o _) _ => destruct o as [cs | e]
  end; cbn [bind]; [ | reflexivity ].
  destruct (rank m _) as [rs | e]; cbn [bind]; [ | reflexivity ].
  cbn. repeat split.
Qed.

(** C3 (as the program behaves).  A facilitator all of whose samples failed
    is left out of the report altogether: it is not among the facilitators,
    the descriptive statistics, the comparisons or the ranking, and nothing
    else changes, i.e. apart from the record counts the analysis behaves as
    on the batch without that facilitator's rows. *)
Theorem analyzeData_omits_failed_facilitator
    (data : list (BenchmarkRow num)) (f : field) :
  (forall row, In row data -> facilitator row = f -> success row = false) ->
  sameFindings (analyzeData data) (analyzeData (without f data))
  /\ forall r, analyzeData data = Returned r ->
       ~ In f (facilitators r)
       /\ ~ In f (map fst (descriptive r))
       /\ ~ In f (map (@name num) (rankings r))
       /\ forall c, In c (comparisons r) -> f1 c <> f /\ f2 c <> f.
Proof.
  intros Hfail. split.
  - apply analyzeData_ext. symmetry. now apply successfulData_without.
  - intros r Hr.
    destruct (@analyzeData_returned data r Hr) as (Hfs & Hkeys & Hcs & Hrank).
    assert (Hout : ~ In f (facilitators r)).
    { rewrite Hfs. intros Hin. apply unique_In in Hin.
      apply in_map_iff in Hin as (row & Hf & Hrow).
      apply filter_In in Hrow as [Hrow Hok].
      rewrite (Hfail row Hrow Hf) in Hok. discriminate. }
    split; [ exact Hout | ].
    split; [ intros Hin; apply Hout, Hkeys, Hin | ].
    split.
    + intros Hin. apply Hout. now apply (@Permutation_in _ _ _ f Hrank).
    + intros c Hc. rewrite Hcs in Hc.
      apply in_map_iff in Hc as ([a b] & <- & Hab).
      apply unorderedPairs_In in Hab as [Ha Hb]. simpl.
      split; intros ->; contradiction.
Qed.

(** *** The errors of the analysis *)

Lemma throwsOnly_bind (A B : Type) (e : exn) (o : outcome A) (k : A -> outcome B) :
  throwsOnly e o -> (forall a, throwsOnly e (k a)) -> throwsOnly e (bind o k).
Proof. destruct o as [a | e']; simpl; auto. Qed.

Lemma the_throws (A : Type) (o : option A) : throwsOnly TypeError (the o).
Proof. now destruct o. Qed.

Lemma toFixed_throws (v : value num) : throwsOnly TypeError (toFixed v).
Proof. now destruct v. Qed.

Lemma describeAll_throws (data : list (BenchmarkRow num)) (fs : list field) :
  forall m, throwsOnly TypeError (describeAll data m fs).
Proof.
  induction fs as [| f fs IH]; intros m; simpl; [ exact I | ].
  apply throwsOnly_bind; [ | intros; apply IH ].
  unfold describe. cbv zeta.
  repeat (apply throwsOnly_bind; [ apply toFixed_throws | intros _ ]).
  exact I.
Qed.

Lemma compareWith_throws (m : list (field * Entry num)) (a : field) (bs : list field) :
  throwsOnly TypeError (compareWith m a bs).
Proof.
  induction bs as [| b bs IH]; simpl; [ exact I | ].
  apply throwsOnly_bind.
  - unfold compare.
    repeat (apply throwsOnly_bind; [ apply the_throws | intros ? ]). exact I.
  - intros c. apply throwsOnly_bind; [ exact IH | intros; exact I ].
Qed.

Lemma pairwise_throws (m : list (field * Entry num)) (fs : list field) :
  throwsOnly TypeError (pairwise m fs).
Proof.
  induction fs as [| a fs IH]; simpl; [ exact I | ].
  apply throwsOnly_bind; [ apply compareWith_throws | intros cs ].
  apply throwsOnly_bind; [ exact IH | intros; exact I ].
Qed.

Lemma rank_throws (m : list (field * Entry num)) (fs : list field) :
  throwsOnly TypeError (rank m fs).
Proof.
  induction fs as [| f fs IH]; simpl; [ exact I | ].
  apply throwsOnly_bind; [ apply the_throws | intros e ].
  apply throwsOnly_bind; [ exact IH | intros; exact I ].
Qed.

(** The analysis never ends in [InvalidInput]: when it throws, it is the
    [TypeError] of a method call on a missing value. *)
Lemma analyzeData_throws_only_TypeError (data : list (BenchmarkRow num)) :
  throwsOnly TypeError (analyzeData data).
Proof.
  unfold analyzeData. cbv zeta.
  apply throwsOnly_bind; [ apply describeAll_throws | intros m ].
  apply throwsOnly_bind.
  - destruct (2 <=? _)%nat; [ apply pairwise_throws | exact I ].
  - intros cs. apply throwsOnly_bind; [ apply rank_throws | intros; exact I ].
Qed.

End ReportTheorems.

(* ================================================================= *)
(** ** Runs of the analysis on concrete batches (binary64) *)

Section Runs.

Local Open Scope string_scope.

(** C3 (as stated) fails: "PayAI", all of whose samples failed, is nowhere in
    the report; it is omitted, not marked. *)
Lemma analyzeData_failed_facilitator_is_absent :
  exists r, analyzeData oneFailing = Returned r
            /\ totalRecords r = 5%nat /\ failed r = 2%nat
            /\ facilitators r = [Some "FareSide"]
            /\ map fst (descriptive r) = [Some "FareSide"]
            /\ map (@name float) (rankings r) = [Some "FareSide"]
            /\ comparisons r = [].
Proof.
  eexists. split; [ vm_compute; reflexivity | ].
  vm_compute. repeat split.
Qed.

Lemma analyzeData_omits_failed_facilitator_witness :
  (forall row, In row oneFailing -> facilitator row = Some "PayAI" -> success row = false)
  /\ sameFindings (analyzeData oneFailing) (analyzeData (without (Some "PayAI") oneFailing)).
Proof.
  assert (Hfail : forall row, In row oneFailing ->
                    facilitator row = Some "PayAI" -> success row = false).
  { intros row Hin Hf. simpl in Hin.
    repeat (destruct Hin as [<- | Hin];
            [ first [ reflexivity | discriminate Hf ] | ]).
    contradiction. }
  split; [ exact Hfail | ].
  exact (proj1 (@analyzeData_omits_failed_facilitator float _ oneFailing
                  (Some "PayAI") Hfail)).
Defined.



(** C4 on [analyzeData]: the successful sample without a facilitation time
    is counted in the facilitation statistics ([n] is 4, not 3), entering the
    mean as 0; and a facilitator whose only successful sample lacks the time
    makes the analysis throw. *)
Theorem analyzeData_counts_missing_facilitation :
  (exists r, analyzeData oneMissing = Returned r
             /\ map (fun e => (n (facilitation (snd e)), n (roundtrip (snd e)),
                               mean (facilitation (snd e)), min (facilitation (snd e))))
                    (descriptive r)
                = [ (4%nat, 4%nat, decimal 825 1, Null) ]
             /\ successful r = 4%nat)
  /\ analyzeData [ sampleRow "PayAI" None (Some 1300%Z) true ] = Thrown TypeError.
Proof.
  split.
  - eexists. split; [ vm_compute; reflexivity | ].
    vm_compute. split; reflexivity.
  - vm_compute. reflexivity.
Qed.

End Runs.

(* ================================================================= *)
(** ** Writing and re-reading the tabular file *)

Module StrFacts.

Import Str.
Local Open Scope string_scope.

Lemma contains_append (c : ascii) (a b : string) :
  contains c (a ++ b) = contains c a || contains c b.
Proof.
  induction a as [| d a IH]; simpl; [ reflexivity | ].
  now rewrite IH, orb_assoc.
Qed.

Lemma split_without (sep : ascii) (s : string) :
  contains sep s = false -> split sep s = [s].
Proof.
  induction s as [| c s IH]; simpl; [ reflexivity | ].
  intros Hc. apply orb_false_iff in Hc as [Hc Hs].
  now rewrite Hc, IH.
Qed.

Lemma split_append (sep : ascii) (a b : string) :
  contains sep a = false ->
  split sep (a ++ String sep b) = a :: split sep b.
Proof.
  induction a as [| c a IH]; simpl.
  - intros _. now rewrite Ascii.eqb_refl.
  - intros Hc. apply orb_false_iff in Hc as [Hc Ha].
    now rewrite Hc, IH.
Qed.

(** Splitting a joined list of separator-free strings gives the list back. *)
Lemma split_join (sep : ascii) (x : string) (xs : list string) :
  Forall (fun s => contains sep s = false) (x :: xs) ->
  split sep (join sep (x :: xs)) = x :: xs.
Proof.
  revert x. induction xs as [| y xs IH]; intros x Hall.
  - simpl. apply split_without. now apply Forall_inv in Hall.
  - change (join sep (x :: y :: xs)) with (x ++ String sep (join sep (y :: xs))).
    rewrite split_append by (now apply Forall_inv in Hall).
    now rewrite IH by (now apply Forall_inv_tail in Hall).
Qed.

Lemma trimEnd_append (a b : string) :
  trimEnd b = b -> b <> "" -> trimEnd (a ++ b) = a ++ b.
Proof.
  intros Hb Hne. induction a as [| c a IH]; simpl; [ assumption | ].
  rewrite IH. destruct (a ++ b) eqn:E; [ | reflexivity ].
  destruct a; simpl in E; [ contradiction | discriminate ].
Qed.

Lemma trimEnd_newline (a : string) :
  trimEnd a = a -> a <> "" -> trimEnd (a ++ String newline "") = a.
Proof.
  intros Ha Hne. induction a as [| c a IH]; [ contradiction | ].
  simpl in *. destruct a as [| d a].
  - simpl in *. destruct (isWhiteSpace c); [ discriminate | reflexivity ].
  - assert (Hd : trimEnd (String d a) = String d a).
    { destruct (trimEnd (String d a)) eqn:E.
      - destruct (isWhiteSpace c); discriminate.
      - congruence. }
    rewrite IH by (auto; discriminate). reflexivity.
Qed.

(** *** Decimal numerals *)

Lemma digits_numeral (d : Decimal.uint) :
  digits (NilEmpty.string_of_uint d) = d.
Proof. induction d; simpl; congruence. Qed.

Lemma numeral_plain (c : ascii) (d : Decimal.uint) :
  digit c = None -> contains c (NilEmpty.string_of_uint d) = false.
Proof.
  intros Hc.
  induction d; cbn [NilEmpty.string_of_uint contains]; [ reflexivity | .. ];
    rewrite IHd, orb_false_r; apply Ascii.eqb_neq; intros <-; discriminate.
Qed.

Lemma numeral_starts (d : Decimal.uint) :
  d <> Decimal.Nil ->
  exists c s, NilEmpty.string_of_uint d = String c s
              /\ isWhiteSpace c = false /\ c <> "-"%char /\ c <> "+"%char.
Proof.
  destruct d; intros Hd; [ contradiction | .. ]; simpl;
    eexists; eexists; (split; [ reflexivity | ]); repeat split; discriminate.
Qed.

End StrFacts.

Section RoundTrip.

Context {num : Type} `{JsNumber num}.
Import Str StrFacts.
Local Open Scope string_scope.

Lemma append_assoc (a b c : string) : (a ++ b) ++ c = a ++ (b ++ c).
Proof. induction a as [| x a IH]; simpl; congruence. Qed.

Lemma parseInt_ofZ (z : Z) : (0 <= z)%Z -> parseInt (ofZ z) = of_int z.
Proof.
  intros Hz. destruct z as [| q | q]; [ reflexivity | | lia ].
  unfold parseInt, ofZ.
  destruct (numeral_starts (DecimalPos.Unsigned.to_uint_nonnil q))
    as (c & s & E & Hws & Hminus & Hplus).
  rewrite E. cbn [trimStart]. rewrite Hws.
  apply Ascii.eqb_neq in Hminus, Hplus. rewrite Hminus, Hplus.
  rewrite <- E, digits_numeral.
  pose proof (DecimalPos.Unsigned.to_uint_nonnil q) as Hnil.
  pose proof (DecimalPos.Unsigned.of_to q) as Hval.
  destruct (Pos.to_uint q); [ contradiction | .. ];
    unfold N.of_uint; rewrite Hval; reflexivity.
Qed.

Lemma ofZ_plain (c : ascii) (z : Z) :
  digit c = None -> (0 <= z)%Z -> contains c (ofZ z) = false.
Proof.
  intros Hc Hz. destruct z as [| q | q]; [ | | lia ].
  - cbn [ofZ contains]. rewrite orb_false_r.
    apply Ascii.eqb_neq. intros <-. discriminate.
  - now apply numeral_plain.
Qed.

Lemma ofZ_nonempty (z : Z) : (0 <= z)%Z -> exists c s, ofZ z = String c s.
Proof.
  intros Hz. destruct z as [| q | q]; [ simpl; eauto | | lia ].
  destruct (numeral_starts (DecimalPos.Unsigned.to_uint_nonnil q))
    as (c & s & E & _). simpl. eauto.
Qed.

Lemma orEmpty_plain (c : ascii) (o : option Z) :
  digit c = None -> Driver.optionalCount o = true ->
  contains c (Driver.orEmpty o) = false.
Proof.
  intros Hc Ho. destruct o as [z |]; [ | reflexivity ].
  apply ofZ_plain; [ assumption | ].
  unfold Driver.optionalCount, Driver.count in Ho.
  apply andb_true_iff in Ho as [Ho _]. now apply Z.leb_le.
Qed.

Lemma parseOptional_orEmpty (o : option Z) :
  Driver.optionalCount o = true ->
  parseOptional (Some (Driver.orEmpty o)) = optionalNumber o.
Proof.
  intros Ho. destruct o as [z |]; [ | reflexivity ].
  assert (Hz : (0 <= z)%Z).
  { unfold Driver.optionalCount, Driver.count in Ho.
    apply andb_true_iff in Ho as [Ho _]. now apply Z.leb_le. }
  cbn [Driver.orEmpty optionalNumber].
  destruct (ofZ_nonempty Hz) as (c & s & E).
  unfold parseOptional. rewrite E, <- E. now rewrite parseInt_ofZ.
Qed.

Lemma ofBool_plain (b : bool) :
  contains comma (ofBool b) = false /\ contains newline (ofBool b) = false.
Proof. destruct b; split; reflexivity. Qed.

Section OneRow.

Variable r : Driver.BenchmarkResult.
Hypothesis wf : Driver.wellFormed r = true.

Let wf_parts :
  Driver.plain (Driver.timestamp r) = true
  /\ Driver.plain (Driver.facilitator r) = true
  /\ Driver.plain (Driver.network r) = true
  /\ Driver.plain (Driver.error r) = true
  /\ trimEnd (Driver.error r) = Driver.error r
  /\ (0 <= Driver.sampleNum r)%Z
  /\ Driver.optionalCount (Driver.facilitationMs r) = true
  /\ Driver.optionalCount (Driver.roundtripMs r) = true.
Proof.
  unfold Driver.wellFormed in wf.
  do 7 (apply andb_true_iff in wf as [wf ?]).
  repeat match goal with
         | Hq : String.eqb _ _ = true |- _ => apply String.eqb_eq in Hq
         | Hc : Driver.count _ = true |- _ =>
             unfold Driver.count in Hc;
             apply andb_true_iff in Hc as [Hc _]; apply Z.leb_le in Hc
         end.
  repeat split; assumption.
Qed.

Lemma plain_parts (s : string) :
  Driver.plain s = true -> contains comma s = false /\ contains newline s = false.
Proof.
  unfold Driver.plain. intros Hp. apply andb_true_iff in Hp as [Hc Hn].
  split; now apply negb_true_iff.
Qed.

Lemma fields_without (c : ascii) :
  (c = comma \/ c = newline) ->
  Forall (fun s => contains c s = false)
    [ Driver.timestamp r; Driver.facilitator r; Driver.network r;
      ofZ (Driver.sampleNum r);
      Driver.orEmpty (Driver.facilitationMs r);
      Driver.orEmpty (Driver.roundtripMs r);
      ofBool (Driver.success r);
      Driver.error r ].
Proof.
  destruct wf_parts as (Hts & Hf & Hn & He & _ & Hz & Hfm & Hrm).
  intros Hc.
  assert (Hd : digit c = None) by (destruct Hc as [-> | ->]; reflexivity).
  assert (Hplain : forall s, Driver.plain s = true -> contains c s = false).
  { intros s Hs. destruct (@plain_parts s Hs). destruct Hc as [-> | ->]; assumption. }
  assert (Hbool : contains c (ofBool (Driver.success r)) = false).
  { destruct (ofBool_plain (Driver.success r)). destruct Hc as [-> | ->]; assumption. }
  repeat constructor; auto using ofZ_plain, orEmpty_plain.
Qed.

Lemma parseLine_rowLine : parseLine (rowLine r) = toRow r.
Proof.
  destruct wf_parts as (_ & _ & _ & _ & _ & Hz & Hfm & Hrm).
  unfold parseLine, rowLine. cbv zeta.
  rewrite split_join by (apply fields_without; now left).
  cbn [nth_error].
  rewrite parseInt_ofZ, !parseOptional_orEmpty by assumption.
  unfold toRow. f_equal.
  - destruct (Driver.success r); reflexivity.
  - destruct (Driver.error r); reflexivity.
Qed.

End OneRow.

Lemma append_nil_r (a : string) : a ++ "" = a.
Proof. induction a as [| x a IH]; simpl; congruence. Qed.

Lemma join_cons (sep : ascii) (x y : string) (xs : list string) :
  join sep (x :: y :: xs) = x ++ String sep (join sep (y :: xs)).
Proof. reflexivity. Qed.

Lemma contains_join (c sep : ascii) (x : string) (xs : list string) :
  Ascii.eqb sep c = false ->
  Forall (fun s => contains c s = false) (x :: xs) ->
  contains c (join sep (x :: xs)) = false.
Proof.
  intros Hsep. revert x. induction xs as [| y xs IH]; intros x Hall.
  - now apply Forall_inv in Hall.
  - rewrite join_cons, contains_append. cbn [contains].
    rewrite Hsep, (Forall_inv Hall), IH by (now apply Forall_inv_tail in Hall).
    reflexivity.
Qed.

Lemma trimEnd_cons (c : ascii) (b : string) :
  trimEnd b = b -> (b = "" -> isWhiteSpace c = false) ->
  trimEnd (String c b) = String c b.
Proof.
  intros Hb Hc. cbn [trimEnd]. rewrite Hb.
  destruct b; [ now rewrite Hc | reflexivity ].
Qed.

(** A joined list ends as its last element does. *)
Lemma trimEnd_join_last (sep : ascii) (xs : list string) (e : string) :
  trimEnd e = e -> e <> "" ->
  trimEnd (join sep (xs ++ [e])) = join sep (xs ++ [e])
  /\ join sep (xs ++ [e]) <> "".
Proof.
  intros He Hne. induction xs as [| x xs [IH1 IH2]].
  - simpl. now split.
  - assert (Hcons : join sep ((x :: xs) ++ [e])
                    = x ++ String sep (join sep (xs ++ [e]))).
    { destruct xs; reflexivity. }
    rewrite Hcons. split.
    + apply trimEnd_append; [ | discriminate ].
      apply trimEnd_cons; [ assumption | contradiction ].
    + destruct x; discriminate.
Qed.

Lemma rowLine_shape (r : Driver.BenchmarkResult) :
  Driver.wellFormed r = true ->
  contains newline (rowLine r) = false
  /\ trimEnd (rowLine r) = rowLine r /\ rowLine r <> "".
Proof.
  intros wf. split.
  - apply contains_join; [ reflexivity | ].
    apply fields_without; [ assumption | now right ].
  - change (rowLine r)
      with (join comma
              ([ Driver.timestamp r; Driver.facilitator r; Driver.network r;
                 ofZ (Driver.sampleNum r);
                 Driver.orEmpty (Driver.facilitationMs r);
                 Driver.orEmpty (Driver.roundtripMs r) ]
               ++ [ ofBool (Driver.success r) ++ String comma (Driver.error r) ])).
    apply trimEnd_join_last.
    + apply trimEnd_append; [ | discriminate ].
      apply trimEnd_cons; [ | reflexivity ].
      unfold Driver.wellFormed in wf.
      do 3 (apply andb_true_iff in wf as [wf _]).
      apply andb_true_iff in wf as [_ wf]. now apply String.eqb_eq.
    + destruct (Driver.success r); discriminate.
Qed.

Lemma concat_rows (h : string) (ls : list string) :
  (h ++ String newline "")
  ++ String.concat "" (map (fun l => l ++ String newline "") ls)
  = join newline (h :: ls) ++ String newline "".
Proof.
  revert h. induction ls as [| l ls IH]; intros h.
  - simpl. now rewrite append_nil_r.
  - rewrite join_cons.
    assert (Hc : String.concat "" (map (fun l => l ++ String newline "") (l :: ls))
                 = (l ++ String newline "")
                   ++ String.concat "" (map (fun l => l ++ String newline "") ls)).
    { destruct ls; simpl; [ now rewrite append_nil_r | reflexivity ]. }
    rewrite Hc, IH, !append_assoc. reflexivity.
Qed.

Lemma writeCsv_lines (results : list Driver.BenchmarkResult) :
  Driver.writeCsv results
  = join newline (headerLine :: map rowLine results) ++ String newline "".
Proof.
  unfold Driver.writeCsv.
  change Driver.CSV_HEADER with (headerLine ++ String newline "").
  rewrite <- concat_rows, map_map. reflexivity.
Qed.

Lemma trim_file (results : list Driver.BenchmarkResult) :
  forallb Driver.wellFormed results = true ->
  trim (Driver.writeCsv results) = join newline (headerLine :: map rowLine results).
Proof.
  intros Hwf. unfold trim.
  assert (Hstart : trimStart (Driver.writeCsv results) = Driver.writeCsv results)
    by reflexivity.
  rewrite Hstart, writeCsv_lines.
  destruct (@exists_last _ (headerLine :: map rowLine results))
    as (xs & e & Hlast); [ discriminate | ].
  rewrite Hlast.
  assert (He : trimEnd e = e /\ e <> "").
  { assert (Hin : In e (headerLine :: map rowLine results))
      by (rewrite Hlast; apply in_or_app; right; now left).
    destruct Hin as [<- | Hin]; [ split; [ reflexivity | discriminate ] | ].
    apply in_map_iff in Hin as (r & <- & Hr).
    rewrite forallb_forall in Hwf.
    destruct (@rowLine_shape r (Hwf r Hr)) as (_ & Hclean & Hne). now split. }
  destruct He as [Hclean Hne].
  destruct (@trimEnd_join_last newline xs e Hclean Hne) as [Hj Hjne].
  now apply trimEnd_newline.
Qed.


End RoundTrip.

Section DriverRuns.

Local Open Scope string_scope.

Lemma escapeCommas_plain (s : string) :
  Str.contains Str.comma (Driver.escapeCommas s) = false.
Proof.
  induction s as [| c s IH]; [ reflexivity | ].
  cbn [Driver.escapeCommas Str.contains]. rewrite IH, orb_false_r.
  destruct (Ascii.eqb c Str.comma) eqn:E; [ reflexivity | exact E ].
Qed.

(** The sibling path: the summary of the Solana driver drops a successful
    result without a facilitation time from the facilitation times, and
    keeps it among the successful results and the roundtrip times. *)
Lemma runBenchmark_excludes_missing_facilitation
    (r : Driver.BenchmarkResult) (rest : list Driver.BenchmarkResult)
    (endpoint : string) (rt : Z) :
  Driver.success r = true ->
  Driver.facilitator r = endpoint ->
  Driver.facilitationMs r = None ->
  Driver.roundtripMs r = Some rt ->
  Driver.facilitatorResults (r :: rest) endpoint
    = r :: Driver.facilitatorResults rest endpoint
  /\ Driver.facilitationTimes (r :: rest) endpoint
     = Driver.facilitationTimes rest endpoint
  /\ Driver.roundtripTimes (r :: rest) endpoint
     = rt :: Driver.roundtripTimes rest endpoint.
Proof.
  intros Hok Hf Hnone Hrt.
  unfold Driver.facilitationTimes, Driver.roundtripTimes, Driver.facilitatorResults.
  cbn [filter]. rewrite Hok, Hf, String.eqb_refl. cbn [andb map Driver.present flat_map].
  rewrite Hnone, Hrt. repeat split.
Qed.



End DriverRuns.

(* ================================================================= *)
(** ** The structure of the report *)

Section ReportStructure.

Context {num : Type} `{JsNumber num}.

Lemma unique_In_iff (x : field) (xs : list field) : In x (unique xs) <-> In x xs.
Proof.
  split; [ apply unique_In | ].
  induction xs as [| y xs IH]; simpl; [ easy | ].
  intros [-> | Hin]; [ now left | ].
  destruct (field_eqb y x) eqn:E.
  - apply field_eqb_eq in E. now left.
  - right. apply filter_In. split; [ now apply IH | now rewrite E ].
Qed.

Lemma unique_NoDup (xs : list field) : NoDup (unique xs).
Proof.
  induction xs as [| y xs IH]; simpl; constructor.
  - intros Hin. apply filter_In in Hin as [_ Hne].
    now rewrite field_eqb_refl in Hne.
  - now apply NoDup_filter.
Qed.

Lemma unorderedPairs_length (fs : list field) :
  2 * length (unorderedPairs fs) = length fs * (length fs - 1).
Proof.
  induction fs as [| a fs IH]; simpl; [ reflexivity | ].
  rewrite length_app, length_map, Nat.sub_0_r. nia.
Qed.

Lemma unorderedPairs_ordered (fs : list field) (a b : field) :
  NoDup fs -> In (a, b) (unorderedPairs fs) ->
  a <> b /\ ~ In (b, a) (unorderedPairs fs).
Proof.
  induction fs as [| x fs IH]; simpl; [ easy | ].
  intros Hnd Hin. apply NoDup_cons_iff in Hnd as [Hx Hnd].
  apply in_app_or in Hin as [Hin | Hin].
  - apply in_map_iff in Hin as (y & Heq & Hy). inversion Heq; subst.
    split; [ intros ->; contradiction | ].
    intros Hrev. apply in_app_or in Hrev as [Hrev | Hrev].
    + apply in_map_iff in Hrev as (z & Heq' & _). inversion Heq'; subst. contradiction.
    + apply unorderedPairs_In in Hrev as [_ Hrev]. contradiction.
  - destruct (IH Hnd Hin) as [Hne Hrev]. split; [ exact Hne | ].
    intros Hin'. apply in_app_or in Hin' as [Hin' | Hin']; [ | contradiction ].
    apply in_map_iff in Hin' as (z & Heq' & _). inversion Heq'; subst.
    apply unorderedPairs_In in Hin as [_ Hin]. contradiction.
Qed.

Lemma unorderedPairs_NoDup (fs : list field) : NoDup fs -> NoDup (unorderedPairs fs).
Proof.
  induction fs as [| x fs IH]; simpl; intros Hnd; [ constructor | ].
  apply NoDup_cons_iff in Hnd as [Hx Hnd].
  apply NoDup_app.
  - apply Finite.Injective_map_NoDup; [ | assumption ].
    intros y z Heq. now inversion Heq.
  - now apply IH.
  - intros [a b] Hin Hin'.
    apply in_map_iff in Hin as (y & Heq & _). inversion Heq; subst.
    apply unorderedPairs_In in Hin' as [Hin' _]. contradiction.
Qed.

Lemma calculateStats_n (values : list (value num)) :
  n (calculateStats values) = length values.
Proof.
  unfold calculateStats. cbv zeta.
  destruct (Nat.eqb_spec (length values) 0) as [-> | _]; reflexivity.
Qed.

(** Every field of the report of a run that returns, in terms of the rows. *)
Lemma analyzeData_fields (data : list (BenchmarkRow num)) (r : Analysis num) :
  analyzeData data = Returned r ->
  let ok := successfulData data in
  let fs := unique (map (@facilitator num) ok) in
  describeAll data [] fs = Returned (descriptive r)
  /\ totalRecords r = length data
  /\ successful r = length ok
  /\ failed r = length data - length ok
  /\ facilitators r = fs
  /\ pooled r = calculateStats (map (@facilitationMs num) ok)
  /\ recommendations r
     = map (recommend (pooled r) (len fs)) [25; 50; 75; 100; 150; 200]%Z
  /\ rankings r
     = Array_sort (fun a b => (mean (stats a) - mean (stats b))%js)
         (map (fun f => {| name := f; stats := facilitation (entryOf data f) |}) fs)
  /\ overlaps r = adjacent (rankings r).
Proof.
  unfold analyzeData. cbv zeta.
  set (fs := unique (map (@facilitator num) (successfulData data))).
  destruct (describeAll data [] fs) as [m | e] eqn:Hm; cbn [bind]; [ | discriminate ].
  assert (Hknown : forall f, In f fs -> Map_get m f = Some (entryOf data f)).
  { intros f Hf. rewrite (@describeAll_get num _ data fs [] m Hm f).
    apply existsb_field_In in Hf. now rewrite Hf. }
  rewrite (@rank_direct num _ data m fs Hknown fs) by apply incl_refl.
  match goal with
  | |- bind ?o _ = _ -> _ => destruct o as [cs | e]
  end; cbn [bind]; [ | discriminate ].
  intros Hr. inversion Hr; subst r; clear Hr. cbn. repeat split.
Qed.

(** Keys that are new to the map are appended in order. *)
Lemma Map_set_fresh (m : list (field * Entry num)) (k : field) (e : Entry num) :
  ~ In k (map fst m) -> Map_set m k e = m ++ [(k, e)].
Proof.
  induction m as [| [k0 e0] m IH]; simpl; intros Hk; [ reflexivity | ].
  destruct (field_eqb k0 k) eqn:E.
  - apply field_eqb_eq in E. exfalso. apply Hk. now left.
  - rewrite IH; [ reflexivity | ]. intros Hin. apply Hk. now right.
Qed.

Lemma describeAll_fresh (data : list (BenchmarkRow num)) (fs : list field) :
  forall m0 m, describeAll data m0 fs = Returned m ->
  NoDup fs -> (forall f, In f fs -> ~ In f (map fst m0)) ->
  m = m0 ++ map (fun f => (f, entryOf data f)) fs.
Proof.
  induction fs as [| a fs IH]; intros m0 m Hrun Hnd Hfresh; simpl in *.
  - inversion Hrun. now rewrite app_nil_r.
  - destruct (describe data m0 a) as [m1 | e] eqn:Hd; simpl in Hrun; [ | discriminate ].
    apply describe_returns in Hd. subst m1.
    apply NoDup_cons_iff in Hnd as [Ha Hnd].
    rewrite Map_set_fresh in Hrun by (apply Hfresh; now left).
    rewrite (IH _ _ Hrun Hnd).
    + now rewrite <- app_assoc.
    + intros f Hf Hin. rewrite map_app in Hin. apply in_app_or in Hin as [Hin | Hin].
      * apply (Hfresh f); [ now right | exact Hin ].
      * simpl in Hin. destruct Hin as [<- | []]. contradiction.
Qed.

(** The successful rows are partitioned by facilitator. *)
Lemma list_sum_cons (a : nat) (l : list nat) : list_sum (a :: l) = a + list_sum l.
Proof. reflexivity. Qed.

Lemma sum_split_key (k : field) (g : field -> nat) (V : list field) :
  NoDup V -> (~ In k V -> g k = 0) ->
  list_sum (map g V)
  = g k + list_sum (map g (filter (fun y => negb (field_eqb k y)) V)).
Proof.
  induction V as [| v V IHV]; intros Hnd Hk.
  - simpl. rewrite Hk by easy. reflexivity.
  - apply NoDup_cons_iff in Hnd as [Hv Hnd]. cbn [map filter].
    rewrite list_sum_cons.
    destruct (field_eqb k v) eqn:E; cbn [negb].
    + apply field_eqb_eq in E. subst v.
      assert (Hid : filter (fun y => negb (field_eqb k y)) V = V).
      { apply forallb_filter_id. apply forallb_forall. intros y Hy.
        destruct (field_eqb k y) eqn:E'; [ | reflexivity ].
        apply field_eqb_eq in E'. subst y. contradiction. }
      now rewrite Hid.
    + cbn [map]. rewrite list_sum_cons, IHV; [ lia | assumption | ].
      intros Hk'. apply Hk. intros [-> | Hin]; [ | contradiction ].
      now rewrite field_eqb_refl in E.
Qed.

(** The successful rows are partitioned by facilitator. *)
Lemma partition_by_facilitator (rows : list (BenchmarkRow num)) :
  list_sum (map (fun f => length (filter (fun r => field_eqb (facilitator r) f) rows))
                (unique (map (@facilitator num) rows)))
  = length rows.
Proof.
  induction rows as [| row rows IH]; [ reflexivity | ].
  cbn [map unique]. rewrite list_sum_cons.
  cbn [filter]. rewrite field_eqb_refl. cbn [length].
  set (k := facilitator row) in *.
  set (U := unique (map (@facilitator num) rows)) in *.
  set (g := fun f => length (filter (fun r => field_eqb (facilitator r) f) rows)) in *.
  assert (Hrest : map (fun f => length
                    (if field_eqb k f
                     then row :: filter (fun r => field_eqb (facilitator r) f) rows
                     else filter (fun r => field_eqb (facilitator r) f) rows))
                  (filter (fun y => negb (field_eqb k y)) U)
                  = map g (filter (fun y => negb (field_eqb k y)) U)).
  { apply map_ext_in. intros f Hf. apply filter_In in Hf as [_ Hf].
    destruct (field_eqb k f); [ discriminate | reflexivity ]. }
  rewrite Hrest.
  assert (Hzero : ~ In k U -> g k = 0).
  { intros Hk. unfold g.
    assert (Hnone : forall r, In r rows -> field_eqb (facilitator r) k = false).
    { intros r Hr. apply field_eqb_neq. intros Heq. apply Hk.
      apply unique_In_iff, in_map_iff. now exists r. }
    clear - Hnone. induction rows as [| r rows IH]; [ reflexivity | ].
    simpl. rewrite (Hnone r) by now left. apply IH. intros; apply Hnone; now right. }
  pose proof (@sum_split_key k g U (unique_NoDup _) Hzero) as Hsum.
  rewrite IH in Hsum. fold (g k). lia.
Qed.

Lemma facilitatorData_nonempty (data : list (BenchmarkRow num)) (f : field) :
  In f (unique (map (@facilitator num) (successfulData data))) ->
  facilitatorData data f <> [].
Proof.
  intros Hf. apply unique_In_iff, in_map_iff in Hf as (row & Hrow & Hin).
  assert (Hin' : In row (facilitatorData data f)).
  { unfold facilitatorData. apply filter_In. split; [ exact Hin | ].
    rewrite Hrow. apply field_eqb_refl. }
  intros Hnil. now rewrite Hnil in Hin'.
Qed.

End ReportStructure.

Section ReportStructureTheorems.

Context {num : Type} `{JsNumber num}.

(** X1.  Each unordered pair of facilitators is compared once: the facilitators
    of a report are distinct, [k] of them give [k (k - 1) / 2] comparisons,
    none of a facilitator with itself, and none repeated in either
    orientation. *)
Theorem analyzeData_compares_each_pair_once
    (data : list (BenchmarkRow num)) (r : Analysis num) :
  analyzeData data = Returned r ->
  NoDup (facilitators r)
  /\ 2 * length (comparisons r)
     = length (facilitators r) * (length (facilitators r) - 1)
  /\ NoDup (comparedPairs r)
  /\ forall a b, In (a, b) (comparedPairs r) ->
       a <> b /\ ~ In (b, a) (comparedPairs r).
Proof.
  intros Hr.
  destruct (@analyzeData_returned num _ data r Hr) as (Hfs & _ & Hcs & _).
  assert (Hnd : NoDup (facilitators r)) by (rewrite Hfs; apply unique_NoDup).
  assert (Hpairs : comparedPairs r = unorderedPairs (facilitators r)).
  { unfold comparedPairs. rewrite Hcs, map_map. cbn [f1 f2 directComparison].
    rewrite <- (map_id (unorderedPairs (facilitators r))) at 2.
    apply map_ext. now intros []. }
  split; [ exact Hnd | ]. split; [ | split ].
  - rewrite Hcs, length_map. apply unorderedPairs_length.
  - rewrite Hpairs. now apply unorderedPairs_NoDup.
  - rewrite Hpairs. intros a b. now apply unorderedPairs_ordered.
Qed.

(** X2.  The facilitators of a report are the facilitators of the successful
    rows, and the statistics kept for each are those of its own successful
    rows, at least one: every lookup [facilitatorStats.get(f)!] of the
    report finds its entry. *)
Theorem analyzeData_describes_each_facilitator
    (data : list (BenchmarkRow num)) (r : Analysis num) :
  analyzeData data = Returned r ->
  descriptive r = map (fun f => (f, entryOf data f)) (facilitators r)
  /\ forall f,
       (In f (facilitators r) <->
        exists row, In row data /\ success row = true /\ facilitator row = f)
       /\ (In f (facilitators r) ->
           Map_get (descriptive r) f = Some (entryOf data f)
           /\ n (facilitation (entryOf data f)) = length (facilitatorData data f)
           /\ (1 <= n (facilitation (entryOf data f)))%nat).
Proof.
  intros Hr. destruct (@analyzeData_fields num _ data r Hr)
    as (Hm & _ & _ & _ & Hfs & _).
  split.
  - rewrite Hfs.
    apply (@describeAll_fresh num _ data _ [] _ Hm (unique_NoDup _)).
    intros f _ [].
  - intros f.
    assert (Hiff : In f (facilitators r) <->
              exists row, In row data /\ success row = true /\ facilitator row = f).
    { rewrite Hfs, unique_In_iff, in_map_iff. unfold successfulData.
      split.
      - intros (row & Hf & Hrow). apply filter_In in Hrow as [Hin Hok].
        now exists row.
      - intros (row & Hin & Hok & Hf). exists row. split; [ exact Hf | ].
        apply filter_In. now split. }
    split; [ exact Hiff | ].
    intros Hf. split; [ | split ].
    + rewrite (@describeAll_get num _ data _ [] _ Hm f).
      rewrite Hfs in Hf. apply existsb_field_In in Hf. now rewrite Hf.
    + unfold entryOf, timesOf. cbn [facilitation].
      now rewrite calculateStats_n, length_map.
    + unfold entryOf, timesOf. cbn [facilitation].
      rewrite calculateStats_n, length_map.
      apply Hiff in Hf as (row & Hin & Hok & Hrow).
      assert (Hin' : In row (facilitatorData data f)).
      { unfold facilitatorData, successfulData. apply filter_In. split.
        - apply filter_In. now split.
        - rewrite Hrow. apply field_eqb_refl. }
      destruct (facilitatorData data f); [ contradiction | simpl; lia ].
Qed.

(** X3.  The record counts of a report: successes and failures add up to the
    rows read, the pooled statistics cover every successful row, and the
    per-facilitator sample counts add up to the number of successful rows. *)
Theorem analyzeData_counts (data : list (BenchmarkRow num)) (r : Analysis num) :
  analyzeData data = Returned r ->
  totalRecords r = length data
  /\ successful r = length (filter (@success num) data)
  /\ (successful r + failed r)%nat = totalRecords r
  /\ n (pooled r) = successful r
  /\ list_sum (map (fun e => n (facilitation (snd e))) (descriptive r)) = successful r.
Proof.
  intros Hr. destruct (@analyzeData_fields num _ data r Hr)
    as (Hm & Htot & Hok & Hfail & Hfs & Hpool & _).
  split; [ exact Htot | ]. split; [ exact Hok | ]. split; [ | split ].
  - rewrite Htot, Hok, Hfail. unfold successfulData.
    pose proof (filter_length_le (@success num) data). lia.
  - now rewrite Hpool, calculateStats_n, length_map.
  - rewrite (@describeAll_fresh num _ data _ [] _ Hm (unique_NoDup _))
      by (intros f _ []).
    cbn [app]. rewrite map_map. cbn [snd].
    rewrite Hok, <- (partition_by_facilitator (successfulData data)) at 1.
    f_equal. apply map_ext. intros f.
    unfold entryOf, timesOf. cbn [facilitation].
    now rewrite calculateStats_n, length_map.
Qed.

End ReportStructureTheorems.

Section ReportStructureRuns.

Local Open Scope string_scope.

Lemma analyzeData_compares_each_pair_once_witness :
  exists r, analyzeData oneSingleton = Returned r
            /\ 2 * length (comparisons r)
               = length (facilitators r) * (length (facilitators r) - 1).
Proof.
  eexists. split; [ vm_compute; reflexivity | ].
  apply (@analyzeData_compares_each_pair_once float _ oneSingleton).
  vm_compute. reflexivity.
Defined.

Lemma analyzeData_describes_each_facilitator_witness :
  exists r, analyzeData oneSingleton = Returned r
            /\ descriptive r
               = map (fun f => (f, entryOf oneSingleton f)) (facilitators r).
Proof.
  eexists. split; [ vm_compute; reflexivity | ].
  apply (@analyzeData_describes_each_facilitator float _ oneSingleton).
  vm_compute. reflexivity.
Defined.

Lemma analyzeData_counts_witness :
  exists r, analyzeData oneFailing = Returned r
            /\ totalRecords r = length oneFailing
            /\ successful r = length (filter (@success float) oneFailing)
            /\ (successful r + failed r)%nat = totalRecords r
            /\ n (pooled r) = successful r
            /\ list_sum (map (fun e => n (facilitation (snd e))) (descriptive r))
               = successful r.
Proof.
  eexists. split; [ vm_compute; reflexivity | ].
  apply (@analyzeData_counts float _ oneFailing).
  vm_compute. reflexivity.
Defined.

End ReportStructureRuns.

Section NoSuccesses.

Context {num : Type} `{JsNumber num}.

(** X4.  When no request succeeded (or the file holds a header only) the
    analysis still completes: every row is counted as failed, there are no
    facilitators, no statistics per facilitator, no comparisons and no
    ranking, and the pooled statistics are those of the empty array. *)
Theorem analyzeData_without_successes (data : list (BenchmarkRow num)) :
  forallb (fun row => negb (success row)) data = true ->
  exists r, analyzeData data = Returned r
    /\ totalRecords r = length data /\ successful r = 0 /\ failed r = length data
    /\ facilitators r = [] /\ descriptive r = [] /\ comparisons r = []
    /\ rankings r = [] /\ overlaps r = []
    /\ pooled r = calculateStats []
    /\ length (recommendations r) = 6.
Proof.
  intros Hfail.
  assert (Hok : successfulData data = []).
  { unfold successfulData. induction data as [| row data IH]; [ reflexivity | ].
    cbn [forallb] in Hfail. apply andb_true_iff in Hfail as [Hrow Hfail].
    cbn [filter]. apply negb_true_iff in Hrow. rewrite Hrow. now apply IH. }
  unfold analyzeData. cbv zeta. rewrite Hok. cbn.
  eexists. split; [ reflexivity | ]. cbn.
  repeat split. apply Nat.sub_0_r.
Qed.

End NoSuccesses.

Section NoSuccessesRuns.

Lemma analyzeData_without_successes_witness :
  forallb (fun row => negb (success row)) [failedRow "PayAI"; failedRow "FareSide"] = true
  /\ exists r, analyzeData [failedRow "PayAI"; failedRow "FareSide"] = Returned r
       /\ totalRecords r = 2 /\ successful r = 0 /\ failed r = 2
       /\ facilitators r = [].
Proof.
  split; [ reflexivity | ].
  destruct (@analyzeData_without_successes float _
              [failedRow "PayAI"; failedRow "FareSide"] eq_refl)
    as (r & Hr & H1 & H2 & H3 & H4 & _).
  exists r. repeat split; assumption.
Defined.

End NoSuccessesRuns.

(* ================================================================= *)
(** ** The summary of an array of reals *)

Module SummaryFacts.

Import Exact OnReals ExactFacts PValue SummaryOnReals.
Local Open Scope R_scope.
Local Abbreviation sqrt := R_sqrt.sqrt.




Lemma sum_reals (xs : list R) : sum (reals xs) = Some (totalR xs).
Proof.
  unfold sum. rewrite reals_as_numbers, sum_numbers. cbn [of_int exact].
  apply fold_plus_some.
Qed.




End SummaryFacts.

Module OrderFacts.

Import Exact OnReals ExactFacts PValue SummaryOnReals.
Local Open Scope R_scope.
Local Abbreviation sqrt := R_sqrt.sqrt.




End OrderFacts.

Section SummaryTheorems.

Import Exact OnReals ExactFacts PValue SummaryOnReals SummaryFacts OrderFacts.
Local Open Scope R_scope.
Local Abbreviation sqrt := R_sqrt.sqrt.





End SummaryTheorems.

(* ================================================================= *)
(** ** The report on batches of real times *)

Module ReportOnRealsFacts.

Import Exact OnReals ExactFacts PValue SummaryOnReals SummaryFacts ReportOnReals.
Local Open Scope R_scope.

(** Reading any array at an integer position within its bounds. *)
Lemma get_at (s : list (value xreal)) (k : nat) :
  (k < length s)%nat -> (Z.of_nat (length s) <= 4294967295)%Z ->
  get s (Some (INR k)) = nth k s Undefined.
Proof.
  intros Hk Hmax. unfold get. cbn [as_index exact xindex].
  rewrite INR_IZR_INZ, ZfloorZ.
  destruct (Req_dec_T (IZR (Z.of_nat k)) (IZR (Z.of_nat k))) as [_ | Hne];
    [ | contradiction ].
  replace ((0 <=? Z.of_nat k) && (Z.of_nat k <=? 4294967294))%Z with true
    by (symmetry; apply andb_true_iff; split; apply Z.leb_le; lia).
  now rewrite Nat2Z.id.
Qed.

Lemma get_at_floor (s : list (value xreal)) (x : R) :
  0 <= x < INR (length s) -> (Z.of_nat (length s) <= 4294967295)%Z ->
  get s (Some (IZR (Zfloor x))) = nth (floorIndex x) s Undefined
  /\ (floorIndex x < length s)%nat.
Proof.
  intros [H0 Hn] Hmax.
  assert (Hf0 : (0 <= Zfloor x)%Z) by (apply Zfloor_lub; simpl; lra).
  assert (Hfn : (Zfloor x < Z.of_nat (length s))%Z).
  { apply lt_IZR. rewrite <- INR_IZR_INZ.
    pose proof (Zfloor_bound x). lra. }
  assert (Hlt : (floorIndex x < length s)%nat) by (unfold floorIndex; lia).
  split; [ | exact Hlt ].
  replace (IZR (Zfloor x)) with (INR (floorIndex x)).
  - now apply get_at.
  - unfold floorIndex. rewrite INR_IZR_INZ, Z2Nat.id; auto.
Qed.

Lemma isNum_defined (vs : list (value xreal)) :
  forallb isNum vs = true ->
  filter (fun v => negb (is_undefined v)) vs = vs /\ filter (@is_undefined xreal) vs = [].
Proof.
  induction vs as [| v vs IH]; simpl; [ easy | ].
  intros Hall. apply andb_true_iff in Hall as [Hv Hall].
  destruct (IH Hall) as [-> ->]. destruct v; try discriminate. easy.
Qed.

Lemma toFixed_isNum (v : value xreal) : isNum v = true -> toFixed v = Returned tt.
Proof. destruct v; try discriminate. reflexivity. Qed.

(** On an array of numbers, the median and the quartiles are numbers. *)
Lemma calculateStats_numeric (vs : list (value xreal)) :
  forallb isNum vs = true ->
  (Z.of_nat (length vs) <= 4294967295)%Z ->
  let r := calculateStats vs in
  isNum (median r) = true /\ isNum (q1 r) = true /\ isNum (q3 r) = true.
Proof.
  intros Hall Hmax. cbv zeta. unfold calculateStats.
  destruct (Nat.eqb_spec (length vs) 0) as [H0 | Hn0]; [ now cbn | ].
  cbv zeta. cbn [median q1 q3].
  unfold sort_numeric. destruct (isNum_defined _ Hall) as [-> ->].
  rewrite app_nil_r.
  set (s := Array_sort _ vs).
  assert (Hperm : Permutation s vs) by apply Array_sort_perm.
  assert (Hlen : length s = length vs) by now apply Permutation_length.
  assert (Hs : forall k, (k < length s)%nat -> isNum (nth k s Undefined) = true).
  { intros k Hk. apply (proj1 (forallb_forall _ _) Hall).
    apply (Permutation_in _ Hperm). now apply nth_In. }
  assert (HposR : 1 <= INR (length vs)) by (apply (le_INR 1); lia).
  assert (Hn : @len xreal exact _ vs = Some (INR (length vs))).
  { unfold len. cbn [of_int exact]. now rewrite <- INR_IZR_INZ. }
  rewrite Hn.
  cbn [divide times minus plus exact Math_floor lift1 lift2 of_int decimal].
  rewrite (@xdiv_some (INR (length vs)) (IZR 2)) by lra.
  cbn [lift1 lift2].
  assert (Hfloor : forall x, 0 <= x < INR (length vs) ->
            isNum (get s (Some (IZR (Zfloor x)))) = true).
  { intros x Hx. rewrite <- Hlen in Hx, Hmax.
    destruct (@get_at_floor s x Hx Hmax) as [-> Hk]. now apply Hs. }
  split; [ | split ].
  - destruct (Nat.eqb (length vs mod 2) 0); [ reflexivity | ].
    apply Hfloor. lra.
  - apply Hfloor. simpl. lra.
  - apply Hfloor. simpl. lra.
Qed.

Lemma describe_complete (data : list (BenchmarkRow xreal))
    (m : list (field * Entry xreal)) (f : field) :
  complete data = true ->
  (Z.of_nat (length data) <= 4294967295)%Z ->
  describe data m f = Returned (Map_set m f (entryOf data f)).
Proof.
  intros Hc Hmax. unfold describe. cbv zeta.
  assert (Hrows : forall row, In row (facilitatorData data f) ->
            isNum (facilitationMs row) = true /\ isNum (roundtripMs row) = true).
  { intros row Hrow. unfold facilitatorData, successfulData in Hrow.
    apply filter_In in Hrow as [Hrow _]. apply filter_In in Hrow as [Hin Hok].
    pose proof (proj1 (forallb_forall _ _) Hc row Hin) as Hgood.
    cbv beta in Hgood. rewrite Hok in Hgood. now apply andb_true_iff in Hgood. }
  assert (Hlen : (length (facilitatorData data f) <= length data)%nat).
  { unfold facilitatorData, successfulData.
    etransitivity; apply filter_length_le. }
  assert (Hf : forallb isNum (map (@facilitationMs xreal) (facilitatorData data f)) = true).
  { apply forallb_forall. intros v Hv. apply in_map_iff in Hv as (row & <- & Hrow).
    now apply Hrows. }
  assert (Hr : forallb isNum (map (@roundtripMs xreal) (facilitatorData data f)) = true).
  { apply forallb_forall. intros v Hv. apply in_map_iff in Hv as (row & <- & Hrow).
    now apply Hrows. }
  destruct (@calculateStats_numeric _ Hf) as (H1 & H2 & H3);
    [ rewrite length_map; lia | ].
  destruct (@calculateStats_numeric _ Hr) as (H4 & H5 & H6);
    [ rewrite length_map; lia | ].
  rewrite !toFixed_isNum by assumption. reflexivity.
Qed.

Lemma describeAll_complete (data : list (BenchmarkRow xreal)) (fs : list field) :
  complete data = true ->
  (Z.of_nat (length data) <= 4294967295)%Z ->
  forall m, exists m', describeAll data m fs = Returned m'.
Proof.
  intros Hc Hmax. induction fs as [| f fs IH]; intros m; simpl.
  - now exists m.
  - rewrite describe_complete by assumption. cbn [bind]. apply IH.
Qed.

(** The analysis of a batch whose successful rows carry both times returns. *)
Lemma analyzeData_complete (data : list (BenchmarkRow xreal)) :
  complete data = true ->
  (Z.of_nat (length data) <= 4294967295)%Z ->
  exists r, analyzeData data = Returned r.
Proof.
  intros Hc Hmax. unfold analyzeData. cbv zeta.
  set (fs := unique (map (@facilitator xreal) (successfulData data))).
  destruct (@describeAll_complete data fs Hc Hmax []) as [m Hm].
  rewrite Hm. cbn [bind].
  assert (Hknown : forall f, In f fs -> Map_get m f = Some (entryOf data f)).
  { intros f Hf. rewrite (@describeAll_get xreal _ data fs [] m Hm f).
    apply existsb_field_In in Hf. now rewrite Hf. }
  rewrite (@rank_direct xreal _ data m fs Hknown fs) by apply incl_refl.
  assert (Hpairs : exists cs, (if (2 <=? length fs)%nat then pairwise m fs else Returned [])
                              = Returned cs).
  { destruct (2 <=? length fs)%nat; [ | now eexists ].
    rewrite (@pairwise_direct xreal _ data m fs Hknown fs) by apply incl_refl.
    now eexists. }
  destruct Hpairs as [cs ->]. cbn [bind]. now eexists.
Qed.

(** *** Sorting by a real key *)

Section ByKey.

Variable A : Type.
Variable key : A -> xreal.
Variable keyR : A -> R.

Lemma insert_by_key (x : A) (s : list A) :
  key x = Some (keyR x) -> (forall a, In a s -> key a = Some (keyR a)) ->
  Sorted (fun a b => keyR a <= keyR b) s ->
  Sorted (fun a b => keyR a <= keyR b) (insert (fun a b => minus (key a) (key b)) x s).
Proof.
  intros Hx Hs Hsorted.
  induction s as [| y s IH]; simpl.
  - repeat constructor.
  - rewrite Hx, (Hs y) by now left.
    cbn [minus lt of_int exact lift2 xlt].
    apply Sorted_inv in Hsorted as [Hsorted Hhd].
    assert (Hs' : forall a, In a s -> key a = Some (keyR a))
      by (intros; apply Hs; now right).
    destruct (Rlt_dec (IZR 0) (keyR x - keyR y)) as [Hgt | Hle].
    + constructor; [ now apply IH | ].
      specialize (IH Hs' Hsorted).
      destruct s as [| z s]; simpl.
      * constructor. lra.
      * apply HdRel_inv in Hhd.
        rewrite Hx, (Hs' z) by now left.
        cbn [minus lt of_int exact lift2 xlt].
        destruct (Rlt_dec (IZR 0) (keyR x - keyR z)); constructor; lra.
    + constructor; [ now constructor | ]. constructor. lra.
Qed.

Lemma Array_sort_by_key (l : list A) :
  (forall a, In a l -> key a = Some (keyR a)) ->
  Sorted (fun a b => keyR a <= keyR b)
         (Array_sort (fun a b => minus (key a) (key b)) l).
Proof.
  induction l as [| x l IH]; intros Hl; [ constructor | ].
  change (Array_sort (fun a b => minus (key a) (key b)) (x :: l))
    with (insert (fun a b => minus (key a) (key b)) x
            (Array_sort (fun a b => minus (key a) (key b)) l)).
  apply insert_by_key.
  - apply Hl. now left.
  - intros a Ha. apply Hl. right.
    now apply (Permutation_in _ (Array_sort_perm (fun a b => minus (key a) (key b)) l)).
  - apply IH. intros; apply Hl; now right.
Qed.

End ByKey.

Lemma timed_times (data : list (BenchmarkRow xreal)) (f : field) :
  timed data = true -> exists xs, timesOf data f = reals xs.
Proof.
  intros Hm. unfold timesOf, facilitatorData, successfulData.
  induction data as [| row data IH]; [ now exists [] | ].
  cbn [timed forallb] in Hm. apply andb_true_iff in Hm as [Hrow Hm].
  destruct (IH Hm) as [xs Hxs]. cbn [filter].
  destruct (success row); [ | now exists xs ].
  cbn [filter]. destruct (field_eqb (facilitator row) f); [ | now exists xs ].
  cbn [map]. cbn in Hrow. destruct (facilitationMs row) as [[x |] | |]; try discriminate.
  exists (x :: xs). cbn. now rewrite Hxs.
Qed.

Lemma mean_reals (xs : list R) :
  xs <> [] -> mean (calculateStats (reals xs)) = Some (meanR xs).
Proof.
  intros Hne. unfold calculateStats. rewrite reals_length.
  destruct (Nat.eqb_spec (length xs) 0) as [H0 | Hn0].
  - destruct xs; [ contradiction | discriminate ].
  - cbv zeta. cbn [mean]. rewrite sum_reals.
    assert (Hn : @len xreal exact _ (reals xs) = Some (INR (length xs))).
    { unfold len. rewrite reals_length. cbn [of_int exact].
      now rewrite <- INR_IZR_INZ. }
    rewrite Hn. cbn [divide exact]. apply xdiv_some.
    apply not_0_INR. exact Hn0.
Qed.

Lemma adjacent_length (rs : list (Ranked xreal)) :
  length (adjacent rs) = (length rs - 1)%nat.
Proof.
  induction rs as [| a [| b rs] IH]; [ reflexivity | reflexivity | ].
  change (adjacent (a :: b :: rs))
    with ({| current := name a; next := name b;
             overlap := lt (ci95Lower (stats b)) (ci95Upper (stats a)) |}
          :: adjacent (b :: rs)).
  cbn [length] in *. rewrite IH. lia.
Qed.

End ReportOnRealsFacts.

Section ReportOnRealsTheorems.

Import Exact OnReals ExactFacts PValue SummaryOnReals SummaryFacts ReportOnReals.
Import ReportOnRealsFacts.
Local Open Scope R_scope.

(** X7.  In exact arithmetic, the analysis of a batch in which every successful
    row carries both of its times does not throw. *)
Theorem analyzeData_returns_on_complete_rows (data : list (BenchmarkRow xreal)) :
  complete data = true ->
  (Z.of_nat (length data) <= 4294967295)%Z ->
  exists r, analyzeData data = Returned r
            /\ totalRecords r = length data
            /\ length (recommendations r) = 6%nat.
Proof.
  intros Hc Hmax. destruct (analyzeData_complete data Hc Hmax) as [r Hr].
  exists r. split; [ exact Hr | ].
  destruct (analyzeData_fields data Hr) as (_ & Htot & _ & _ & _ & _ & Hrec & _).
  split; [ exact Htot | ]. now rewrite Hrec.
Qed.

Lemma analyzeData_returns_on_complete_rows_witness :
  complete twoFacilitators = true
  /\ exists r, analyzeData twoFacilitators = Returned r
               /\ totalRecords r = length twoFacilitators
               /\ length (recommendations r) = 6%nat.
Proof.
  split; [ reflexivity | ].
  apply (@analyzeData_returns_on_complete_rows twoFacilitators).
  - reflexivity.
  - simpl. lia.
Defined.

(** X8.  In exact arithmetic, on a batch whose successful rows carry finite
    times, the ranking lists every facilitator once, with the statistics of
    its own rows, in ascending order of mean facilitation time; and there
    is one overlap verdict per adjacent pair of the ranking. *)
Theorem analyzeData_ranks_by_mean (data : list (BenchmarkRow xreal)) :
  complete data = true ->
  timed data = true ->
  (Z.of_nat (length data) <= 4294967295)%Z ->
  exists r, analyzeData data = Returned r
    /\ Permutation (map (@name xreal) (rankings r)) (facilitators r)
    /\ (forall x, In x (rankings r) ->
          stats x = facilitation (entryOf data (name x))
          /\ mean (stats x) = Some (meanOf x))
    /\ Sorted (fun a b => meanOf a <= meanOf b) (rankings r)
    /\ length (overlaps r) = (length (facilitators r) - 1)%nat.
Proof.
  intros Hc Hm Hmax. destruct (analyzeData_complete data Hc Hmax) as [r Hr].
  exists r. split; [ exact Hr | ].
  destruct (analyzeData_returned data Hr) as (_ & _ & _ & Hperm).
  destruct (analyzeData_fields data Hr) as (_ & _ & _ & _ & Hfs & _ & _ & Hrank & Hov).
  cbv zeta in Hfs, Hrank.
  set (fs := unique (map (@facilitator xreal) (successfulData data))) in *.
  set (mk := fun f => {| name := f; stats := facilitation (entryOf data f) |}) in *.
  assert (Hkey : forall a, In a (map mk fs) ->
            stats a = facilitation (entryOf data (name a))
            /\ mean (stats a) = Some (meanOf a)).
  { intros a Ha. apply in_map_iff in Ha as (f & <- & Hf).
    split; [ reflexivity | ].
    unfold meanOf, mk. cbn [stats name entryOf facilitation].
    destruct (@timed_times data f Hm) as [xs Hxs]. rewrite Hxs.
    assert (Hne : xs <> []).
    { intros ->. apply (facilitatorData_nonempty data f Hf).
      unfold timesOf in Hxs. now apply map_eq_nil in Hxs. }
    now rewrite (mean_reals Hne). }
  split; [ exact Hperm | ]. split; [ | split ].
  - intros x Hx. apply Hkey. rewrite Hrank in Hx.
    now apply (Permutation_in _ (Array_sort_perm _ _)) in Hx.
  - rewrite Hrank.
    apply (@Array_sort_by_key (Ranked xreal) (fun a => mean (stats a)) meanOf).
    intros a Ha. now apply Hkey.
  - rewrite Hov, adjacent_length, <- (Permutation_length Hperm), length_map.
    reflexivity.
Qed.

Lemma analyzeData_ranks_by_mean_witness :
  complete twoFacilitators = true /\ timed twoFacilitators = true
  /\ exists r, analyzeData twoFacilitators = Returned r
       /\ Permutation (map (@name xreal) (rankings r)) (facilitators r)
       /\ Sorted (fun a b => meanOf a <= meanOf b) (rankings r).
Proof.
  split; [ reflexivity | ]. split; [ reflexivity | ].
  destruct (@analyzeData_ranks_by_mean twoFacilitators) as (r & Hr & Hp & _ & Hs & _).
  - reflexivity.
  - reflexivity.
  - simpl. lia.
  - exists r. repeat split; assumption.
Defined.

End ReportOnRealsTheorems.

(* ================================================================= *)
(** ** The test and the planner on reals *)

Module WelchOnRealsFacts.

Import Exact OnReals ExactFacts PValue WelchOnReals.
Local Open Scope R_scope.
Local Abbreviation sqrt := R_sqrt.sqrt.

Lemma seR_positive_terms (a b : list R) :
  (2 <= length a)%nat -> (2 <= length b)%nat -> 0 < seR a b ->
  let va := varianceR a / INR (length a) in
  let vb := varianceR b / INR (length b) in
  0 <= va /\ 0 <= vb /\ 0 < va + vb.
Proof.
  intros Ha Hb Hse. cbv zeta.
  assert (2 <= INR (length a)) by (apply (le_INR 2); assumption).
  assert (2 <= INR (length b)) by (apply (le_INR 2); assumption).
  pose proof (@varianceR_nonneg a Ha). pose proof (@varianceR_nonneg b Hb).
  assert (Hva : 0 <= varianceR a / INR (length a))
    by (apply Rmult_le_pos; [ | apply Rlt_le, Rinv_0_lt_compat ]; lra).
  assert (Hvb : 0 <= varianceR b / INR (length b))
    by (apply Rmult_le_pos; [ | apply Rlt_le, Rinv_0_lt_compat ]; lra).
  split; [ exact Hva | ]. split; [ exact Hvb | ].
  destruct (Rle_lt_or_eq_dec 0 _ (Rplus_le_le_0_compat _ _ Hva Hvb)) as [Hlt | Heq];
    [ exact Hlt | ].
  unfold seR in Hse. rewrite <- Heq, sqrt_0 in Hse. lra.
Qed.

(** What [welchTTest] returns on two groups of reals. *)
Lemma welchTTest_reals (a b : list R) :
  (2 <= length a)%nat -> (2 <= length b)%nat -> 0 < seR a b ->
  welchTTest (reals a) (reals b)
  = {| t := Some (tR a b); df := Some (dfR a b); pValue := Some (pR (tR a b)) |}.
Proof.
  intros Ha Hb Hse.
  destruct (@seR_positive_terms a b Ha Hb Hse) as (Hva & Hvb & Hsum).
  assert (HnA : 2 <= INR (length a)) by (apply (le_INR 2); assumption).
  assert (HnB : 2 <= INR (length b)) by (apply (le_INR 2); assumption).
  unfold welchTTest. cbv zeta.
  rewrite !reals_as_numbers, !mean_numbers, !variance_numbers, !len_numbers.
  change (Math_sqrt (sampleVariance (map (@Some R) a) / len (map (@Some R) a)
                     + sampleVariance (map (@Some R) b) / len (map (@Some R) b))%js)
    with (standardError (map (@Some R) a) (map (@Some R) b)).
  rewrite (@standardError_exact a b Ha Hb), !sampleMean_exact by lia.
  rewrite !sampleVariance_exact, !len_some, !length_map by assumption.
  cbn [minus divide exact lift2 of_int].
  rewrite (@xdiv_some (meanR a - meanR b) (seR a b)) by lra.
  rewrite (@xdiv_some (varianceR a) (INR (length a))) by lra.
  rewrite (@xdiv_some (varianceR b) (INR (length b))) by lra.
  cbn [Math_abs Math_pow plus times exact lift1 lift2 of_int].
  rewrite normalCDF_exact.
  set (va := varianceR a / INR (length a)) in *.
  set (vb := varianceR b / INR (length b)) in *.
  rewrite (@xdiv_some (va * (va * IZR 1)) (INR (length a) - IZR 1)) by lra.
  rewrite (@xdiv_some (vb * (vb * IZR 1)) (INR (length b) - IZR 1)) by lra.
  cbn [lift2].
  assert (Hden : 0 < va * (va * 1) / (INR (length a) - 1)
                     + vb * (vb * 1) / (INR (length b) - 1)).
  { assert (Ha1 : 0 < / (INR (length a) - 1)) by (apply Rinv_0_lt_compat; lra).
    assert (Hb1 : 0 < / (INR (length b) - 1)) by (apply Rinv_0_lt_compat; lra).
    unfold Rdiv.
    destruct (Rle_lt_or_eq_dec 0 va Hva) as [Hpa | Hza].
    - assert (0 < va * (va * 1) * / (INR (length a) - 1)) by
        (apply Rmult_lt_0_compat; [ nra | assumption ]).
      assert (0 <= vb * (vb * 1) * / (INR (length b) - 1)) by
        (apply Rmult_le_pos; [ nra | lra ]).
      lra.
    - assert (Hpb : 0 < vb) by lra.
      assert (0 < vb * (vb * 1) * / (INR (length b) - 1)) by
        (apply Rmult_lt_0_compat; [ nra | assumption ]).
      assert (0 <= va * (va * 1) * / (INR (length a) - 1)) by
        (apply Rmult_le_pos; [ nra | lra ]).
      lra. }
  rewrite xdiv_some by lra.
  unfold tR, dfR, pR. fold va vb. rewrite two_tailed.
  replace ((va + vb) * ((va + vb) * 1)) with ((va + vb) ^ 2) by ring.
  replace (va * (va * 1)) with (va ^ 2) by ring.
  replace (vb * (vb * 1)) with (vb ^ 2) by ring.
  reflexivity.
Qed.

Lemma seR_comm (a b : list R) : seR a b = seR b a.
Proof. unfold seR. f_equal. apply Rplus_comm. Qed.

Lemma tail_0 : tail 0 = 999999999 / 1000000000.
Proof.
  unfold tail, poly, a1, a2, a3, a4, a5, p.
  replace (- 0 * 0) with 0 by ring. rewrite exp_0.
  replace (1 / (1 + 3275911 / 10000000 * 0)) with 1 by (field_simplify; lra).
  lra.
Qed.

End WelchOnRealsFacts.

Section WelchOnRealsTheorems.

Import Exact OnReals ExactFacts PValue WelchOnReals WelchOnRealsFacts.
Local Open Scope R_scope.
Local Abbreviation sqrt := R_sqrt.sqrt.

(** X9.  In exact arithmetic [normalCDF] is complementary about every argument
    but 0: normalCDF(z) + normalCDF(-z) = 1.  At 0 it returns 0.5000000005,
    the polynomial of the approximation summing to 0.999999999 there. *)
Theorem normalCDF_complement (z : R) :
  z <> 0 ->
  exists u v : R,
    normalCDF (Some z) = Some u /\ normalCDF (Some (- z)) = Some v
    /\ u + v = 1
    /\ normalCDF (Some 0) = Some (5000000005 / 10000000000).
Proof.
  intros Hz. exists (PhiR z), (PhiR (- z)).
  rewrite !normalCDF_exact. repeat split.
  - unfold PhiR. rewrite Rabs_Ropp.
    destruct (Rlt_dec z 0), (Rlt_dec (- z) 0); lra.
  - f_equal. unfold PhiR. rewrite Rabs_R0.
    replace (0 / sqrt 2) with 0 by (unfold Rdiv; ring).
    rewrite tail_0. destruct (Rlt_dec 0 0); lra.
Qed.

Lemma normalCDF_complement_witness :
  exists u v : R,
    normalCDF (Some 1) = Some u /\ normalCDF (Some (- 1)) = Some v /\ u + v = 1.
Proof.
  destruct (@normalCDF_complement 1) as (u & v & Hu & Hv & Huv & _).
  - lra.
  - now exists u, v.
Defined.

(** X10.  In exact arithmetic, exchanging the two groups changes the sign of the
    t statistic and nothing else: the degrees of freedom and the p-value
    are the same. *)
Theorem welchTTest_exchange (a b : list R) :
  (2 <= length a)%nat ->
  (2 <= length b)%nat ->
  lt (of_int 0) (standardError (map (@Some R) a) (map (@Some R) b)) = true ->
  exists tv dv pv : R,
    welchTTest (reals a) (reals b) = {| t := Some tv; df := Some dv; pValue := Some pv |}
    /\ welchTTest (reals b) (reals a)
       = {| t := Some (- tv); df := Some dv; pValue := Some pv |}.
Proof.
  intros Ha Hb Hse.
  rewrite (@standardError_exact a b Ha Hb) in Hse.
  cbn [lt of_int exact xlt] in Hse.
  destruct (Rlt_dec (IZR 0) (seR a b)) as [Hpos | _]; [ | discriminate ].
  exists (tR a b), (dfR a b), (pR (tR a b)).
  rewrite (@welchTTest_reals a b Ha Hb Hpos).
  rewrite (@welchTTest_reals b a Hb Ha) by (rewrite seR_comm; exact Hpos).
  split; [ reflexivity | ].
  assert (Ht : tR b a = - tR a b).
  { unfold tR. rewrite (seR_comm b a). unfold Rdiv. ring. }
  assert (Hd : dfR b a = dfR a b).
  { unfold dfR. cbv zeta. f_equal; [ f_equal; ring | ring ]. }
  rewrite Ht, Hd. unfold pR. now rewrite Rabs_Ropp.
Qed.

Lemma welchTTest_exchange_witness :
  (2 <= length [0; 2])%nat /\ (2 <= length [1; 3])%nat
  /\ exists tv dv pv : R,
       welchTTest (reals [0; 2]) (reals [1; 3])
       = {| t := Some tv; df := Some dv; pValue := Some pv |}
       /\ welchTTest (reals [1; 3]) (reals [0; 2])
          = {| t := Some (- tv); df := Some dv; pValue := Some pv |}.
Proof.
  split; [ simpl; lia | ]. split; [ simpl; lia | ].
  apply (@welchTTest_exchange [0; 2] [1; 3]).
  - simpl; lia.
  - simpl; lia.
  - rewrite standardError_exact by (simpl; lia).
    cbn [lt of_int exact xlt].
    destruct (Rlt_dec (IZR 0) (seR [0; 2] [1; 3])) as [_ | Hn]; [ reflexivity | ].
    exfalso. apply Hn. apply sqrt_lt_R0.
    unfold varianceR, meanR, totalR. simpl. lra.
Defined.





End WelchOnRealsTheorems.

Module Monotone.

Import Exact OnReals ExactFacts PValue.
Local Open Scope R_scope.
Local Abbreviation sqrt := R_sqrt.sqrt.

Lemma bernstein_pair (u v : R) (a b c d : nat) :
  0 <= u <= 1 -> 0 <= v <= 1 ->
  0 <= u ^ a * v ^ b * (1 - u) ^ c * (1 - v) ^ d.
Proof.
  intros Hu Hv. repeat apply Rmult_le_pos; apply pow_le; lra.
Qed.

(** The divided difference of the polynomial is not negative on the unit
    square: it is a combination, with positive weights, of products of
    powers of [u], [v], [1 - u] and [1 - v]. *)
Lemma poly_slope_nonneg (u v : R) :
  0 <= u <= 1 -> 0 <= v <= 1 ->
  0 <= a1 + a2 * (u + v) + a3 * (u ^ 2 + u * v + v ^ 2)
       + a4 * (u ^ 3 + u ^ 2 * v + u * v ^ 2 + v ^ 3)
       + a5 * (u ^ 4 + u ^ 3 * v + u ^ 2 * v ^ 2 + u * v ^ 3 + v ^ 4).
Proof.
  intros Hu Hv. unfold a1, a2, a3, a4, a5.
  pose proof (@bernstein_pair u v 0 0 0 4 Hu Hv).
  pose proof (@bernstein_pair u v 0 0 1 3 Hu Hv).
  pose proof (@bernstein_pair u v 0 0 2 2 Hu Hv).
  pose proof (@bernstein_pair u v 0 0 3 1 Hu Hv).
  pose proof (@bernstein_pair u v 0 0 4 0 Hu Hv).
  pose proof (@bernstein_pair u v 0 1 0 3 Hu Hv).
  pose proof (@bernstein_pair u v 0 1 1 2 Hu Hv).
  pose proof (@bernstein_pair u v 0 1 2 1 Hu Hv).
  pose proof (@bernstein_pair u v 0 1 3 0 Hu Hv).
  pose proof (@bernstein_pair u v 1 0 0 3 Hu Hv).
  pose proof (@bernstein_pair u v 1 0 1 2 Hu Hv).
  pose proof (@bernstein_pair u v 1 0 2 1 Hu Hv).
  pose proof (@bernstein_pair u v 1 0 3 0 Hu Hv).
  pose proof (@bernstein_pair u v 0 2 0 2 Hu Hv).
  pose proof (@bernstein_pair u v 0 2 1 1 Hu Hv).
  pose proof (@bernstein_pair u v 0 2 2 0 Hu Hv).
  pose proof (@bernstein_pair u v 1 1 0 2 Hu Hv).
  pose proof (@bernstein_pair u v 1 1 1 1 Hu Hv).
  pose proof (@bernstein_pair u v 1 1 2 0 Hu Hv).
  pose proof (@bernstein_pair u v 2 0 0 2 Hu Hv).
  pose proof (@bernstein_pair u v 2 0 1 1 Hu Hv).
  pose proof (@bernstein_pair u v 2 0 2 0 Hu Hv).
  pose proof (@bernstein_pair u v 0 3 0 1 Hu Hv).
  pose proof (@bernstein_pair u v 0 3 1 0 Hu Hv).
  pose proof (@bernstein_pair u v 1 2 0 1 Hu Hv).
  pose proof (@bernstein_pair u v 1 2 1 0 Hu Hv).
  pose proof (@bernstein_pair u v 2 1 0 1 Hu Hv).
  pose proof (@bernstein_pair u v 2 1 1 0 Hu Hv).
  pose proof (@bernstein_pair u v 3 0 0 1 Hu Hv).
  pose proof (@bernstein_pair u v 3 0 1 0 Hu Hv).
  pose proof (@bernstein_pair u v 0 4 0 0 Hu Hv).
  pose proof (@bernstein_pair u v 1 3 0 0 Hu Hv).
  pose proof (@bernstein_pair u v 2 2 0 0 Hu Hv).
  pose proof (@bernstein_pair u v 3 1 0 0 Hu Hv).
  pose proof (@bernstein_pair u v 4 0 0 0 Hu Hv).
  lra.
Qed.

Lemma poly_increasing (u v : R) : 0 <= u -> u <= v -> v <= 1 -> poly u <= poly v.
Proof.
  intros H0 Huv H1.
  pose proof (@poly_slope_nonneg u v ltac:(lra) ltac:(lra)) as Hq.
  assert (Hd : poly v - poly u
               = (v - u) * (a1 + a2 * (u + v) + a3 * (u ^ 2 + u * v + v ^ 2)
                            + a4 * (u ^ 3 + u ^ 2 * v + u * v ^ 2 + v ^ 3)
                            + a5 * (u ^ 4 + u ^ 3 * v + u ^ 2 * v ^ 2 + u * v ^ 3 + v ^ 4)))
    by (unfold poly; ring).
  assert (0 <= poly v - poly u) by (rewrite Hd; apply Rmult_le_pos; lra).
  lra.
Qed.

Lemma tail_decreasing (x y : R) : 0 <= x -> x <= y -> tail y <= tail x.
Proof.
  intros Hx Hxy. unfold tail.
  assert (Hdx : 1 <= 1 + p * x) by (unfold p; nra).
  assert (Hdy : 1 + p * x <= 1 + p * y) by (unfold p; nra).
  assert (Huy : 0 <= 1 / (1 + p * y)) by (apply Rlt_le, Rdiv_lt_0_compat; lra).
  assert (Huxy : 1 / (1 + p * y) <= 1 / (1 + p * x)).
  { unfold Rdiv. rewrite !Rmult_1_l. apply Rinv_le_contravar; lra. }
  assert (Hux : 1 / (1 + p * x) <= 1).
  { apply (Rmult_le_reg_r (1 + p * x)); [ lra | ].
    unfold Rdiv. rewrite Rmult_assoc, Rinv_l by lra. lra. }
  pose proof (@poly_increasing _ _ Huy Huxy Hux) as Hp.
  pose proof (@poly_nonneg (1 / (1 + p * y)) ltac:(lra)) as Hp0.
  assert (He : exp (- y * y) <= exp (- x * x)).
  { destruct (Req_dec (- y * y) (- x * x)) as [-> | Hne]; [ lra | ].
    apply Rlt_le, exp_increasing. nra. }
  pose proof (exp_pos (- y * y)) as Hey.
  apply Rmult_le_compat; lra.
Qed.

Lemma PhiR_increasing (x y : R) : x <= y -> PhiR x <= PhiR y.
Proof.
  intros Hxy. unfold PhiR.
  assert (Hs : 0 < / sqrt 2) by (apply Rinv_0_lt_compat, sqrt_lt_R0; lra).
  assert (Hscale : forall a b, 0 <= a -> a <= b -> 0 <= a / sqrt 2 /\ a / sqrt 2 <= b / sqrt 2).
  { intros a b Ha Hab. unfold Rdiv. split; nra. }
  destruct (Rlt_dec x 0) as [Hx | Hx], (Rlt_dec y 0) as [Hy | Hy].
  - rewrite !Rabs_left by lra.
    destruct (Hscale (- y) (- x) ltac:(lra) ltac:(lra)) as [H1 H2].
    pose proof (tail_decreasing H1 H2). lra.
  - assert (Hax : 0 <= Rabs x / sqrt 2)
      by (apply Rmult_le_pos; [ apply Rabs_pos | lra ]).
    assert (Hay : 0 <= Rabs y / sqrt 2)
      by (apply Rmult_le_pos; [ apply Rabs_pos | lra ]).
    pose proof (tail_range Hax). pose proof (tail_range Hay). lra.
  - lra.
  - rewrite !Rabs_right by lra.
    destruct (Hscale x y ltac:(lra) ltac:(lra)) as [H1 H2].
    pose proof (tail_decreasing H1 H2). lra.
Qed.

End Monotone.

Section MonotoneTheorems.

Import Exact OnReals ExactFacts PValue WelchOnReals Monotone.
Local Open Scope R_scope.

(** X13.  In exact arithmetic [normalCDF] does not decrease, and so the
    two-tailed p-value [2 * (1 - normalCDF(|t|))] of [welchTTest] does not
    grow with the magnitude of the statistic. *)
Theorem normalCDF_monotone (x y : R) :
  x <= y ->
  exists u v : R,
    normalCDF (Some x) = Some u /\ normalCDF (Some y) = Some v /\ u <= v
    /\ (0 <= x ->
        exists p q : R,
          (of_int 2 * (of_int 1 - normalCDF (Math_abs (Some x))))%js = Some p
          /\ (of_int 2 * (of_int 1 - normalCDF (Math_abs (Some y))))%js = Some q
          /\ q <= p).
Proof.
  intros Hxy. exists (PhiR x), (PhiR y). rewrite !normalCDF_exact.
  repeat split.
  - now apply PhiR_increasing.
  - intros Hx. exists (pR x), (pR y).
    cbn [Math_abs exact lift1]. rewrite !normalCDF_exact.
    cbn [of_int minus times exact lift2]. rewrite !two_tailed.
    repeat split. unfold pR. rewrite !Rabs_right by lra.
    assert (Hs : 0 < / R_sqrt.sqrt 2) by (apply Rinv_0_lt_compat, sqrt_lt_R0; lra).
    apply tail_decreasing; unfold Rdiv; nra.
Qed.

Lemma normalCDF_monotone_witness :
  exists u v : R,
    normalCDF (Some 1) = Some u /\ normalCDF (Some 2) = Some v /\ u <= v.
Proof.
  destruct (@normalCDF_monotone 1 2) as (u & v & Hu & Hv & Huv & _).
  - lra.
  - now exists u, v.
Defined.

End MonotoneTheorems.

Module VerdictFacts.

Import Exact OnReals ExactFacts PValue SummaryOnReals SummaryFacts.
Import ReportOnReals ReportOnRealsFacts WelchOnReals WelchOnRealsFacts.
Local Open Scope R_scope.

Lemma normalCDF_undefined : normalCDF (@None R) = None.
Proof. reflexivity. Qed.

Lemma seR_nonneg (a b : list R) : 0 <= seR a b.
Proof. apply sqrt_pos. Qed.

Lemma xdiv_zero (a : xreal) : xdiv a (Some 0) = None.
Proof.
  unfold xdiv. destruct a as [x |]; [ | reflexivity ].
  destruct (Req_dec_T 0 0) as [_ | Hne]; [ reflexivity | contradiction ].
Qed.

Lemma small_sample_undefined (xs : list R) :
  (length xs < 2)%nat ->
  (sampleVariance (map (@Some R) xs) / len (map (@Some R) xs))%js = None.
Proof.
  intros Hn. unfold sampleVariance. rewrite !len_some, !length_map.
  destruct xs as [| x [| y l]]; [ | | simpl in Hn; lia ].
  - cbn [length INR divide exact]. apply xdiv_zero.
  - cbn [length INR minus of_int exact lift2].
    replace (1 - IZR 1) with 0 by (simpl; lra).
    cbn [divide exact]. now rewrite xdiv_zero.
Qed.

(** Without two values on each side and a positive standard error, the
    p-value is not a number. *)
Lemma welchTTest_reals_undefined (a b : list R) :
  ~ ((2 <= length a)%nat /\ (2 <= length b)%nat /\ 0 < seR a b) ->
  pValue (welchTTest (reals a) (reals b)) = None.
Proof.
  intros Hnot. unfold welchTTest. cbv zeta. cbn [pValue].
  assert (Ht : forall m1 m2 : xreal, forall va vb : xreal,
            (va = None \/ vb = None \/ exists x y, va = Some x /\ vb = Some y /\ x + y <= 0) ->
            (of_int 2 * (of_int 1 - normalCDF (Math_abs
               ((m1 - m2) / Math_sqrt (va + vb)))))%js = None).
  { intros m1 m2 va vb Hv.
    assert (Hse : ((m1 - m2) / Math_sqrt (va + vb))%js = None).
    { destruct Hv as [-> | [-> | (x & y & -> & -> & Hxy)]].
      - cbn. destruct (lift2 Rminus m1 m2); reflexivity.
      - destruct va; cbn; destruct (lift2 Rminus m1 m2); reflexivity.
      - cbn [plus Math_sqrt exact lift2 xsqrt divide].
        destruct (Rlt_dec (x + y) 0) as [Hneg | Hn0].
        + destruct (minus m1 m2); reflexivity.
        + assert (Hz : x + y = 0) by lra. rewrite Hz, sqrt_0.
          apply xdiv_zero. }
    rewrite Hse. reflexivity. }
  apply Ht.
  rewrite !reals_as_numbers, !mean_numbers, !variance_numbers, !len_numbers.
  destruct (Nat.leb_spec 2 (length a)) as [Ha | Ha];
    [ | left; now apply small_sample_undefined ].
  destruct (Nat.leb_spec 2 (length b)) as [Hb | Hb];
    [ | right; left; now apply small_sample_undefined ].
  right. right.
  rewrite !sampleVariance_exact, !len_some, !length_map by assumption.
  assert (2 <= INR (length a)) by (apply (le_INR 2); assumption).
  assert (2 <= INR (length b)) by (apply (le_INR 2); assumption).
  cbn [divide exact]. rewrite !xdiv_some by lra.
  eexists. eexists. split; [ reflexivity | ]. split; [ reflexivity | ].
  destruct (Rle_lt_dec (varianceR a / INR (length a) + varianceR b / INR (length b)) 0)
    as [Hle | Hgt]; [ exact Hle | ].
  exfalso. apply Hnot. repeat split; try assumption.
  unfold seR. now apply sqrt_lt_R0.
Qed.

(** A significant difference is a difference of the means. *)
Lemma significant_means_differ (a b : list R) :
  lt (pValue (welchTTest (reals a) (reals b))) (decimal 5 2) = true ->
  meanR a <> meanR b.
Proof.
  intros Hsig Hmean.
  destruct (Nat.leb_spec 2 (length a)) as [Ha | Ha];
  [ destruct (Nat.leb_spec 2 (length b)) as [Hb | Hb];
    [ destruct (Rlt_dec 0 (seR a b)) as [Hse | Hse] | ] | ].
  - rewrite (@welchTTest_reals a b Ha Hb Hse) in Hsig. cbn [pValue] in Hsig.
    assert (Ht : tR a b = 0) by (unfold tR; rewrite Hmean; unfold Rdiv; ring).
    rewrite Ht in Hsig. unfold pR in Hsig. rewrite Rabs_R0 in Hsig.
    replace (0 / R_sqrt.sqrt 2) with 0 in Hsig by (unfold Rdiv; ring).
    rewrite tail_0 in Hsig. cbn [lt decimal exact xlt] in Hsig.
    destruct (Rlt_dec _ _) as [Hlt | _]; [ | discriminate ].
    simpl in Hlt. lra.
  - rewrite welchTTest_reals_undefined in Hsig by tauto. discriminate.
  - rewrite welchTTest_reals_undefined in Hsig by (intros (_ & ? & _); lia). discriminate.
  - rewrite welchTTest_reals_undefined in Hsig by (intros (? & _); lia). discriminate.
Qed.

End VerdictFacts.

Section VerdictTheorems.

Import Exact OnReals ExactFacts PValue SummaryOnReals SummaryFacts.
Import ReportOnReals ReportOnRealsFacts WelchOnReals WelchOnRealsFacts VerdictFacts.
Local Open Scope R_scope.

(** X14.  In exact arithmetic, on a batch whose successful rows carry finite
    times, a comparison the report calls significant always names as the
    faster of the two the facilitator whose mean facilitation time is
    strictly the smaller; a comparison it does not call significant names
    none. *)
Theorem analyzeData_names_the_smaller_mean (data : list (BenchmarkRow xreal)) :
  complete data = true ->
  timed data = true ->
  (Z.of_nat (length data) <= 4294967295)%Z ->
  exists r, analyzeData data = Returned r
    /\ forall c, In c (comparisons r) ->
         (significant c = false -> faster c = None)
         /\ (significant c = true ->
             exists m1 m2 : R,
               mean (facilitation (entryOf data (f1 c))) = Some m1
               /\ mean (facilitation (entryOf data (f2 c))) = Some m2
               /\ diff c = Some (m1 - m2)
               /\ ((m1 < m2 /\ faster c = Some (f1 c))
                   \/ (m2 < m1 /\ faster c = Some (f2 c)))).
Proof.
  intros Hc Hm Hmax. destruct (analyzeData_complete data Hc Hmax) as [r Hr].
  exists r. split; [ exact Hr | ].
  destruct (analyzeData_returned data Hr) as (Hfs & _ & Hcs & _).
  intros c Hin. rewrite Hcs in Hin.
  apply in_map_iff in Hin as ([a b] & <- & Hab). cbn [fst snd].
  apply unorderedPairs_In in Hab as [Ha Hb]. rewrite Hfs in Ha, Hb.
  unfold directComparison. cbv zeta. cbn [significant faster f1 f2 diff].
  split; [ now intros -> | ].
  intros Hsig. rewrite Hsig.
  destruct (@timed_times data a Hm) as [xs Hxs].
  destruct (@timed_times data b Hm) as [ys Hys].
  assert (Hxne : xs <> []).
  { intros ->. apply (facilitatorData_nonempty data a Ha).
    unfold timesOf in Hxs. now apply map_eq_nil in Hxs. }
  assert (Hyne : ys <> []).
  { intros ->. apply (facilitatorData_nonempty data b Hb).
    unfold timesOf in Hys. now apply map_eq_nil in Hys. }
  unfold entryOf. cbn [facilitation].
  rewrite Hxs, Hys in *. rewrite (mean_reals Hxne), (mean_reals Hyne).
  exists (meanR xs), (meanR ys).
  split; [ reflexivity | ]. split; [ reflexivity | ]. split; [ reflexivity | ].
  pose proof (@significant_means_differ xs ys Hsig) as Hne.
  cbn [minus lt of_int exact lift2 xlt].
  destruct (Rlt_dec (meanR xs - meanR ys) (IZR 0)) as [Hlt | Hge].
  - left. split; [ lra | reflexivity ].
  - right. split; [ lra | reflexivity ].
Qed.

Lemma analyzeData_names_the_smaller_mean_witness :
  complete twoFacilitators = true /\ timed twoFacilitators = true
  /\ exists r, analyzeData twoFacilitators = Returned r
       /\ forall c, In c (comparisons r) -> significant c = false -> faster c = None.
Proof.
  split; [ reflexivity | ]. split; [ reflexivity | ].
  destruct (@analyzeData_names_the_smaller_mean twoFacilitators) as (r & Hr & Hall).
  - reflexivity.
  - reflexivity.
  - simpl. lia.
  - exists r. split; [ exact Hr | ]. intros c Hin. now apply Hall.
Defined.

End VerdictTheorems.

(* ================================================================= *)
(** ** The summaries of the drivers *)

Section SummaryVariants.

Context {num : Type} `{JsNumber num}.
Local Open Scope js_scope.

(** X15.  The summary of the main drivers is the analyzer's, field for field:
    on every array, [calculateStats] of [benchmark-main.ts] returns the
    mean, standard deviation, median, minimum, maximum and coefficient of
    variation that [calculateStats] of [analyze-benchmark.ts] returns. *)
Theorem Main_calculateStats_is_the_analyzers (values : list (value num)) :
  Main.calculateStats values
  = {| Main.mean := mean (calculateStats values);
       Main.std := std (calculateStats values);
       Main.median := median (calculateStats values);
       Main.min := min (calculateStats values);
       Main.max := max (calculateStats values);
       Main.cv := cv (calculateStats values) |}.
Proof.
  unfold Main.calculateStats, calculateStats. cbv zeta.
  destruct (Nat.eqb (length values) 0); reflexivity.
Qed.

(** X16.  The summary of the pilot drivers agrees with the analyzer's on the
    mean always, on the standard deviation from two values on, and on the
    coefficient of variation when, besides, the mean is positive. *)
Theorem Pilot_calculateStats_agrees_from_two_values (values : list (value num)) :
  (2 <= length values)%nat ->
  Pilot.mean (Pilot.calculateStats values) = mean (calculateStats values)
  /\ Pilot.std (Pilot.calculateStats values) = std (calculateStats values)
  /\ (lt (of_int 0) (mean (calculateStats values)) = true ->
      Pilot.cv (Pilot.calculateStats values) = cv (calculateStats values)).
Proof.
  intros Hn. unfold Pilot.calculateStats, calculateStats. cbv zeta.
  destruct (Nat.eqb_spec (length values) 0) as [H0 | _]; [ lia | ].
  destruct (Nat.ltb_spec 1 (length values)) as [_ | H1]; [ | lia ].
  cbn [Pilot.mean Pilot.std Pilot.cv mean std cv].
  repeat split. unfold zero. now intros ->.
Qed.

End SummaryVariants.

Section SummaryVariantsRuns.

Import Binary64 Binary64Facts.
Local Open Scope float_scope.

Lemma Pilot_calculateStats_agrees_from_two_values_witness :
  (2 <= length threeValues)%nat
  /\ Pilot.std (Pilot.calculateStats threeValues) = std (calculateStats threeValues).
Proof.
  split; [ simpl; lia | ].
  apply (@Pilot_calculateStats_agrees_from_two_values float _ threeValues).
  simpl. lia.
Defined.

(** X17.  On a single value the summaries part ways.  The pilot drivers divide
    the squared deviation by [n - 1 = 0]: their standard deviation and
    coefficient of variation are NaN, whatever the value.  The analyzer and
    the main drivers take the variance of a single value to be 0: their
    standard deviation is 0, and so is the analyzer's standard error. *)
Theorem calculateStats_single_value (v : value float) :
  Pilot.std (Pilot.calculateStats [v]) = nan
  /\ Pilot.cv (Pilot.calculateStats [v]) = nan
  /\ std (calculateStats [v]) = 0
  /\ se (calculateStats [v]) = 0
  /\ Main.std (Main.calculateStats [v]) = 0.
Proof.
  assert (Hvar : (sum_sq_dev [v] (sum [v] / len [v]) / (len [v] - of_int 1))%js = nan).
  { change (len [v]) with 1. change (1 - of_int 1)%js with 0.
    unfold sum, sum_sq_dev. cbn [fold_left Math_pow].
    change (@of_int float _ 0%Z) with 0. change (@of_int float _ 1%Z) with 1.
    cbn [plus minus times divide binary64].
    apply (@zeroOrNaN_div_zero _
             (@zeroOrNaN_square _ (single_deviation (ToNumber v)))). }
  unfold Pilot.calculateStats, Main.calculateStats, calculateStats.
  cbn [length Nat.eqb Nat.ltb Nat.leb]. cbv zeta.
  cbn [Pilot.std Pilot.cv std se Main.std]. rewrite Hvar.
  cbn [Math_sqrt divide times binary64].
  change (sqrt nan) with nan. rewrite nan_div_l.
  repeat split.
Qed.

End SummaryVariantsRuns.

(* ================================================================= *)
(** ** Ingestion, field by field *)

Module IngestionFacts.

Import Str StrFacts StrTerms.
Local Open Scope string_scope.

Lemma split_length (sep : ascii) (s : string) :
  length (split sep s) = S (occurrences sep s).
Proof.
  induction s as [| c s IH]; [ reflexivity | ].
  cbn [split occurrences]. destruct (Ascii.eqb c sep); cbn [length].
  - now rewrite IH.
  - destruct (split sep s) as [| fld rest]; [ discriminate | ]. exact IH.
Qed.

Lemma trimEnd_app (a b : string) :
  trimEnd (a ++ b) = if String.eqb (trimEnd b) "" then trimEnd a else a ++ trimEnd b.
Proof.
  induction a as [| c a IH]; cbn [append trimEnd].
  - destruct (trimEnd b); reflexivity.
  - rewrite IH. destruct (String.eqb (trimEnd b) "") eqn:E; [ reflexivity | ].
    destruct (a ++ trimEnd b) eqn:E'; [ | reflexivity ].
    destruct a; cbn in E'; [ | discriminate ].
    rewrite E' in E. discriminate.
Qed.

Lemma trimEnd_contains (c : ascii) (s : string) :
  contains c s = false -> contains c (trimEnd s) = false.
Proof.
  induction s as [| d s IH]; [ reflexivity | ].
  cbn [contains trimEnd]. intros Hc. apply orb_false_iff in Hc as [Hd Hs].
  specialize (IH Hs).
  destruct (trimEnd s) as [| a t].
  - destruct (isWhiteSpace d); cbn [contains]; rewrite ?Hd; reflexivity.
  - cbn [contains] in *. rewrite Hd. exact IH.
Qed.

Lemma digits_numeral_app (d : Decimal.uint) (rest : string) :
  startsWithDigit rest = false ->
  digits (NilEmpty.string_of_uint d ++ rest) = d.
Proof.
  intros Hrest.
  induction d; cbn [NilEmpty.string_of_uint append digits digit]; try congruence.
  destruct rest as [| c rest]; [ reflexivity | ].
  cbn [digits]. cbn [startsWithDigit] in Hrest.
  destruct (digit c); [ discriminate | reflexivity ].
Qed.

Lemma ofZ_no_comma (z : Z) : contains comma (ofZ z) = false.
Proof.
  destruct z as [| q | q]; [ reflexivity | now apply numeral_plain | ].
  cbn [ofZ contains]. now rewrite numeral_plain.
Qed.

Lemma orEmpty_no_comma (o : option Z) : contains comma (Driver.orEmpty o) = false.
Proof. destruct o; [ apply ofZ_no_comma | reflexivity ]. Qed.

End IngestionFacts.

Section Ingestion.

Context {num : Type} `{JsNumber num}.
Import Str StrFacts StrTerms IngestionFacts.
Local Open Scope string_scope.

(** X18.  The header is never examined.  Whatever the first line of the file (as
    long as it does not begin with white space), the rows are the lines
    after it, one row per line, up to the white space that ends the file. *)
Theorem parseCSV_ignores_header (header body : string) :
  header <> "" ->
  trimStart header = header ->
  contains newline header = false ->
  parseCSV (header ++ String newline body)
  = if String.eqb (trimEnd body) "" then []
    else map parseLine (split newline (trimEnd body)).
Proof.
  intros Hne Hstart Hnl. unfold parseCSV, trim. cbv zeta.
  assert (Hs : trimStart (header ++ String newline body) = header ++ String newline body).
  { destruct header as [| c h]; [ contradiction | ].
    cbn [append trimStart] in *. destruct (isWhiteSpace c); [ | reflexivity ].
    exfalso. clear - Hstart.
    assert (Hlen : forall s, String.length (trimStart s) <= String.length s).
    { induction s as [| d s IH]; cbn [trimStart]; [ lia | ].
      destruct (isWhiteSpace d); cbn [String.length]; lia. }
    specialize (Hlen h). rewrite Hstart in Hlen. cbn [String.length] in Hlen. lia. }
  rewrite Hs, trimEnd_app.
  assert (Hb : trimEnd (String newline body)
               = if String.eqb (trimEnd body) "" then "" else String newline (trimEnd body)).
  { cbn [trimEnd]. destruct (trimEnd body); reflexivity. }
  rewrite Hb. destruct (String.eqb (trimEnd body) "") eqn:E.
  - cbn [String.eqb]. rewrite split_without by (now apply trimEnd_contains).
    reflexivity.
  - cbn [String.eqb]. rewrite split_append by assumption. reflexivity.
Qed.

(** X19.  Every line after the first becomes a row, blank lines included: the
    number of rows is the number of line breaks in the trimmed content. *)
Theorem parseCSV_row_count (content : string) :
  length (parseCSV content) = occurrences newline (trim content).
Proof.
  unfold parseCSV. cbv zeta. rewrite length_map.
  pose proof (split_length newline (trim content)) as Hlen.
  destruct (split newline (trim content)); [ discriminate | ].
  cbn [tl length] in *. lia.
Qed.

Lemma parseInt_numeral (d : Decimal.uint) (rest : string) :
  d <> Decimal.Nil -> startsWithDigit rest = false ->
  parseInt (NilEmpty.string_of_uint d ++ rest) = of_int (Z.of_N (N.of_uint d))
  /\ parseInt (String "-" (NilEmpty.string_of_uint d ++ rest))
     = negate (of_int (Z.of_N (N.of_uint d))).
Proof.
  intros Hd Hrest. unfold parseInt.
  destruct (numeral_starts Hd) as (c & s & E & Hws & Hminus & Hplus).
  split.
  - rewrite E. cbn [append trimStart]. rewrite Hws.
    apply Ascii.eqb_neq in Hminus, Hplus. rewrite Hminus, Hplus.
    change (String c (s ++ rest)) with (String c s ++ rest).
    rewrite <- E, digits_numeral_app by assumption.
    destruct d; [ contradiction | .. ]; reflexivity.
  - cbn [trimStart]. change (isWhiteSpace "-") with false. cbv iota.
    change (Ascii.eqb "-" "-") with true. cbv iota.
    rewrite digits_numeral_app by assumption.
    destruct d; [ contradiction | .. ]; reflexivity.
Qed.

(** X20.  [parseInt] reads the integer a field begins with and ignores what
    follows it: a fractional or suffixed time is cut down to its integer
    part. *)
Theorem parseInt_reads_leading_integer (z : Z) (rest : string) :
  startsWithDigit rest = false ->
  parseInt (ofZ z ++ rest)
  = if (z <? 0)%Z then negate (of_int (- z)) else of_int z.
Proof.
  intros Hrest. destruct z as [| q | q].
  - change (ofZ 0) with (NilEmpty.string_of_uint (Decimal.D0 Decimal.Nil)).
    now rewrite (proj1 (@parseInt_numeral (Decimal.D0 Decimal.Nil) rest
                          ltac:(discriminate) Hrest)).
  - cbn [ofZ Z.ltb Z.compare].
    rewrite (proj1 (@parseInt_numeral (Pos.to_uint q) rest
                      (DecimalPos.Unsigned.to_uint_nonnil q) Hrest)).
    unfold N.of_uint. now rewrite DecimalPos.Unsigned.of_to.
  - cbn [ofZ Z.ltb Z.compare Z.opp append].
    rewrite (proj2 (@parseInt_numeral (Pos.to_uint q) rest
                      (DecimalPos.Unsigned.to_uint_nonnil q) Hrest)).
    unfold N.of_uint. now rewrite DecimalPos.Unsigned.of_to.
Qed.

(** X21.  A line is read by position.  When the first three fields of a result
    hold no comma, the line written for it reads back with the same
    facilitator and success flag, and with the error text cut at its
    first comma. *)
Theorem parseLine_cuts_error_at_comma (r : Driver.BenchmarkResult) :
  contains comma (Driver.timestamp r) = false ->
  contains comma (Driver.facilitator r) = false ->
  contains comma (Driver.network r) = false ->
  let row := parseLine (rowLine r) in
  timestamp row = Some (Driver.timestamp r)
  /\ facilitator row = Some (Driver.facilitator r)
  /\ network row = Some (Driver.network r)
  /\ success row = Driver.success r
  /\ error row = hd "" (split comma (Driver.error r)).
Proof.
  intros Ht Hf Hn. cbv zeta. unfold parseLine, rowLine. cbv zeta.
  rewrite !join_cons.
  rewrite !split_append
    by (assumption || apply ofZ_no_comma || apply orEmpty_no_comma
        || (destruct (Driver.success r); reflexivity)).
  cbn [join String.concat nth_error timestamp facilitator network success error].
  repeat split.
  - destruct (Driver.success r); reflexivity.
  - destruct (split comma (Driver.error r)) as [| [| c s] rest]; reflexivity.
Qed.

End Ingestion.

Section IngestionRuns.

Import Str StrTerms.
Local Open Scope string_scope.

Lemma parseCSV_ignores_header_witness :
  @parseCSV float _ ("any,first,line" ++ String newline "t,PayAI,base,1,100,200,true,")
  = map parseLine (split newline (trimEnd "t,PayAI,base,1,100,200,true,")).
Proof.
  apply (@parseCSV_ignores_header float _ "any,first,line"
           "t,PayAI,base,1,100,200,true,").
  - discriminate.
  - reflexivity.
  - reflexivity.
Defined.

Lemma parseInt_reads_leading_integer_witness :
  startsWithDigit ".75ms" = false
  /\ @parseInt float _ (ofZ 12 ++ ".75ms") = of_int 12.
Proof.
  split; [ reflexivity | ].
  apply (@parseInt_reads_leading_integer float _ 12 ".75ms"). reflexivity.
Defined.

Lemma parseLine_cuts_error_at_comma_witness :
  contains comma (Driver.timestamp unescaped) = false
  /\ error (@parseLine float _ (rowLine unescaped)) = "fetch failed".
Proof.
  split; [ reflexivity | ].
  exact (proj2 (proj2 (proj2 (proj2
           (@parseLine_cuts_error_at_comma float _ unescaped
              eq_refl eq_refl eq_refl))))).
Defined.

End IngestionRuns.

Module EscapingFacts.

Import Str StrFacts StrTerms.
Local Open Scope string_scope.

Lemma escapeCommas_length (s : string) :
  String.length (Driver.escapeCommas s) = String.length s.
Proof. induction s as [| c s IH]; cbn; congruence. Qed.

Lemma escapeCommas_fixed (s : string) :
  Driver.escapeCommas s = s <-> contains comma s = false.
Proof.
  induction s as [| c s IH]; [ easy | ].
  cbn [Driver.escapeCommas contains].
  destruct (Ascii.eqb c comma) eqn:E; cbn [orb].
  - apply Ascii.eqb_eq in E. subst c. split; discriminate.
  - rewrite <- IH. split; [ now intros [= ->] | now intros -> ].
Qed.

Lemma escapeCommas_idempotent (s : string) :
  Driver.escapeCommas (Driver.escapeCommas s) = Driver.escapeCommas s.
Proof. apply escapeCommas_fixed, escapeCommas_plain. Qed.

Lemma escapeCommas_occurrences (d : ascii) (s : string) :
  Ascii.eqb d comma = false ->
  occurrences d (Driver.escapeCommas s)
  = occurrences d s + (if Ascii.eqb d ";" then occurrences comma s else 0).
Proof.
  intros Hd. induction s as [| c s IH]; [ now destruct (Ascii.eqb d ";") | ].
  cbn [Driver.escapeCommas occurrences]. rewrite IH.
  destruct (Ascii.eqb c comma) eqn:E.
  - apply Ascii.eqb_eq in E. subst c. rewrite (Ascii.eqb_sym comma d), Hd.
    rewrite (Ascii.eqb_sym ";" d). destruct (Ascii.eqb d ";"); lia.
  - destruct (Ascii.eqb d ";"); lia.
Qed.

End EscapingFacts.

Section Escaping.

Import Str StrFacts StrTerms EscapingFacts.
Local Open Scope string_scope.

(** X22.  The escaping [doFetch] applies to an error message: the result has no
    comma and the length of the original; it is the original exactly when
    that had no comma; escaping twice is escaping once; every comma has
    become a semicolon; and line breaks stay, one for one. *)
Theorem escapeCommas_spec (s : string) :
  contains comma (Driver.escapeCommas s) = false
  /\ String.length (Driver.escapeCommas s) = String.length s
  /\ (Driver.escapeCommas s = s <-> contains comma s = false)
  /\ Driver.escapeCommas (Driver.escapeCommas s) = Driver.escapeCommas s
  /\ occurrences newline (Driver.escapeCommas s) = occurrences newline s
  /\ occurrences ";" (Driver.escapeCommas s)
     = occurrences ";" s + occurrences comma s.
Proof.
  split; [ apply escapeCommas_plain | ].
  split; [ apply escapeCommas_length | ].
  split; [ apply escapeCommas_fixed | ].
  split; [ apply escapeCommas_idempotent | ].
  split.
  - rewrite escapeCommas_occurrences by reflexivity. cbn. lia.
  - now rewrite escapeCommas_occurrences by reflexivity.
Qed.

End Escaping.

(* ================================================================= *)
(** ** The runs of the drivers *)

Module BenchFacts.

Import Str StrFacts StrTerms EscapingFacts Bench.
Local Open Scope string_scope.

Lemma escapeCommas_newline (s : string) :
  contains newline (Driver.escapeCommas s) = contains newline s.
Proof.
  induction s as [| c s IH]; [ reflexivity | ].
  cbn [Driver.escapeCommas contains]. rewrite IH.
  destruct (Ascii.eqb c comma) eqn:E; [ | reflexivity ].
  apply Ascii.eqb_eq in E. now subst c.
Qed.

Section Rounds.

Variable doFetch : Exchange -> Endpoint -> Z -> Driver.BenchmarkResult.
Variable ENDPOINTS : list Endpoint.
Variable world : World.

Lemma rounds_In (keep : Driver.BenchmarkResult -> bool)
    (count : nat) (sample : Z) (r : Driver.BenchmarkResult) :
  In r (rounds doFetch ENDPOINTS world keep count sample) <->
  exists endpoint s,
    In endpoint ENDPOINTS /\ (sample <= s < sample + Z.of_nat count)%Z
    /\ r = doFetch (world endpoint s) endpoint s /\ keep r = true.
Proof.
  revert sample. induction count as [| count IH]; intros sample.
  - cbn [rounds]. split; [ intros [] | ]. intros (e & s & _ & Hs & _). lia.
  - cbn [rounds]. rewrite in_app_iff, IH, filter_In. unfold roundResults.
    rewrite in_map_iff. split.
    + intros [[(e & <- & He) Hk] | (e & s & He & Hs & Hr & Hk)].
      * exists e, sample. repeat split; auto; lia.
      * exists e, s. repeat split; auto; lia.
    + intros (e & s & He & Hs & Hr & Hk).
      destruct (Z.eq_dec s sample) as [-> | Hne].
      * left. split; [ | exact Hk ]. exists e. now split.
      * right. exists e, s. repeat split; auto; lia.
Qed.

Lemma rounds_all_length (count : nat) (sample : Z) :
  length (rounds doFetch ENDPOINTS world (fun _ => true) count sample)
  = (count * length ENDPOINTS)%nat.
Proof.
  revert sample. induction count as [| count IH]; intros sample; [ reflexivity | ].
  cbn [rounds]. rewrite length_app, IH.
  assert (Hall : filter (fun _ : Driver.BenchmarkResult => true)
                   (roundResults doFetch ENDPOINTS world sample)
                 = roundResults doFetch ENDPOINTS world sample).
  { apply forallb_filter_id. now apply forallb_forall. }
  rewrite Hall. unfold roundResults. rewrite length_map. lia.
Qed.

End Rounds.

Lemma failedResult_wellFormed (ts f n : string) (sample : Z) (msg : string) :
  Driver.plain ts = true -> Driver.plain f = true -> Driver.plain n = true ->
  Driver.count sample = true ->
  contains newline msg = false ->
  trimEnd (Driver.escapeCommas msg) = Driver.escapeCommas msg ->
  Driver.wellFormed (Driver.failedResult ts f n sample msg) = true.
Proof.
  intros Hts Hf Hn Hs Hnl Htrim. unfold Driver.wellFormed, Driver.failedResult.
  cbn [Driver.timestamp Driver.facilitator Driver.network Driver.error
       Driver.sampleNum Driver.facilitationMs Driver.roundtripMs
       Driver.optionalCount].
  rewrite Hts, Hf, Hn, Hs, Htrim, String.eqb_refl.
  unfold Driver.plain. now rewrite escapeCommas_plain, escapeCommas_newline, Hnl.
Qed.

Lemma Solana_doFetch_wellFormed (x : Exchange) (endpoint : Endpoint) (sample : Z) :
  tidy x = true -> In endpoint Solana.ENDPOINTS -> Driver.count sample = true ->
  Driver.wellFormed (Solana.doFetch x endpoint sample) = true.
Proof.
  intros Hx He Hs. unfold tidy in Hx. apply andb_true_iff in Hx as [Hstamp Hx].
  assert (Hep : Driver.plain (facilitator endpoint) = true
                /\ Driver.plain (network endpoint) = true).
  { cbn in He. destruct He as [<- | [<- | []]]; split; reflexivity. }
  destruct Hep as [Hf Hn].
  unfold Solana.doFetch.
  destruct (answer x) as [elapsed | msg].
  - apply andb_true_iff in Hx as [He1 Hrt]. unfold Driver.wellFormed.
    cbn [Driver.timestamp Driver.facilitator Driver.network Driver.error
         Driver.sampleNum Driver.facilitationMs Driver.roundtripMs
         Driver.optionalCount].
    rewrite Hstamp, Hf, Hn, Hs, He1, Hrt.
    destruct elapsed; reflexivity.
  - apply andb_true_iff in Hx as [Hnl Htrim].
    apply failedResult_wellFormed; auto.
    + now apply negb_true_iff.
    + now apply String.eqb_eq.
Qed.

Lemma Base_doFetch_wellFormed (x : Exchange) (endpoint : Endpoint) (sample : Z) :
  tidy x = true -> In endpoint Base.ENDPOINTS -> Driver.count sample = true ->
  Driver.wellFormed (Base.doFetch x endpoint sample) = true.
Proof.
  intros Hx He Hs. unfold tidy in Hx. apply andb_true_iff in Hx as [Hstamp Hx].
  assert (Hep : Driver.plain (facilitator endpoint) = true
                /\ Driver.plain (network endpoint) = true).
  { cbn in He. destruct He as [<- | [<- | [<- | []]]]; split; reflexivity. }
  destruct Hep as [Hf Hn].
  unfold Base.doFetch.
  destruct (answer x) as [elapsed | msg].
  - apply andb_true_iff in Hx as [He1 Hrt]. unfold Driver.wellFormed.
    cbn [Driver.timestamp Driver.facilitator Driver.network Driver.error
         Driver.sampleNum Driver.facilitationMs Driver.roundtripMs
         Driver.optionalCount].
    now rewrite Hstamp, Hf, Hn, Hs, He1, Hrt.
  - apply andb_true_iff in Hx as [Hnl Htrim].
    apply failedResult_wellFormed; auto.
    + now apply negb_true_iff.
    + now apply String.eqb_eq.
Qed.

Lemma sampleWorld_tidy (endpoint : Endpoint) (sample : Z) :
  tidy (sampleWorld endpoint sample) = true.
Proof.
  assert (Hrt : Driver.count (1000 * sample + 700 - 1000 * sample) = true).
  { replace (1000 * sample + 700 - 1000 * sample)%Z with 700%Z by lia. reflexivity. }
  unfold tidy, sampleWorld. cbn [stamp start finish answer].
  destruct (String.eqb (facilitator endpoint) "PayAI").
  - destruct (Z.odd sample); cbn [andb Driver.optionalCount]; now rewrite Hrt.
  - destruct (sample =? 3)%Z; [ reflexivity | ].
    destruct (sample =? 5)%Z; cbn [andb Driver.optionalCount]; now rewrite Hrt.
Qed.

End BenchFacts.

Section ReadBack.

Context {num : Type} `{JsNumber num}.
Import Str StrFacts.

(** The rows read from the file written for results the format can carry. *)
Lemma rows_of_written_file (results : list Driver.BenchmarkResult) :
  forallb Driver.wellFormed results = true ->
  parseCSV (Driver.writeCsv results) = map toRow results.
Proof.
  intros Hwf. unfold parseCSV. cbv zeta.
  rewrite (trim_file _ Hwf), split_join.
  - cbn [tl]. rewrite map_map. apply map_ext_in.
    intros r Hr. apply parseLine_rowLine.
    now apply (proj1 (forallb_forall _ _) Hwf).
  - constructor; [ reflexivity | ].
    apply Forall_forall. intros l Hl.
    apply in_map_iff in Hl as (r & <- & Hr).
    pose proof (proj1 (forallb_forall _ _) Hwf r Hr) as Hr'.
    now destruct (@rowLine_shape r Hr') as (Hnl & _).
Qed.

End ReadBack.

Section BenchTheorems.

Context {num : Type} `{JsNumber num}.
Import Str StrFacts StrTerms EscapingFacts Bench BenchFacts.
Local Open Scope string_scope.

(** X23.  The results [doFetch] of the Solana drivers builds.  A failure carries
    neither time; a success always carries the roundtrip time, the
    difference of the two clock readings; a success without [elapsed] in
    the response is flagged by its error text and by nothing else; and no
    error text holds a comma. *)
Theorem doFetch_result_invariants (x : Exchange) (endpoint : Endpoint) (sample : Z) :
  let r := Solana.doFetch x endpoint sample in
  (Driver.success r = false ->
     Driver.facilitationMs r = None /\ Driver.roundtripMs r = None)
  /\ (Driver.success r = true ->
        Driver.roundtripMs r = Some (finish x - start x)%Z
        /\ (Driver.facilitationMs r = None
            <-> Driver.error r = "elapsed field missing in response")
        /\ (Driver.facilitationMs r <> None <-> Driver.error r = ""))
  /\ contains comma (Driver.error r) = false
  /\ Driver.facilitator r = facilitator endpoint
  /\ Driver.network r = network endpoint
  /\ Driver.sampleNum r = sample.
Proof.
  cbv zeta. unfold Solana.doFetch. destruct (answer x) as [[z |] | msg]; cbn.
  - repeat split; congruence.
  - repeat split; congruence.
  - repeat split; try congruence. apply escapeCommas_plain.
Qed.

(** X27.  The two [doFetch] build the same result from the same exchange, except
    when the response succeeded without [elapsed]: then the Base drivers
    leave the error text empty where the Solana drivers write "elapsed
    field missing in response", and nothing else differs. *)
Theorem doFetch_of_the_two_networks (x : Exchange) (endpoint : Endpoint) (sample : Z) :
  (answer x <> Json None ->
     Base.doFetch x endpoint sample = Solana.doFetch x endpoint sample)
  /\ (answer x = Json None ->
        Driver.error (Base.doFetch x endpoint sample) = ""
        /\ Driver.error (Solana.doFetch x endpoint sample)
           = "elapsed field missing in response"
        /\ Driver.success (Base.doFetch x endpoint sample) = true
        /\ resultToCsvFields (Base.doFetch x endpoint sample)
           = resultToCsvFields (Solana.doFetch x endpoint sample)).
Proof.
  unfold Base.doFetch, Solana.doFetch, resultToCsvFields.
  destruct (answer x) as [[z |] | msg]; split; intros Ha;
    try reflexivity; try congruence; try discriminate.
  repeat split.
Qed.

(** X24.  The Solana main study records a result only when it succeeded with a
    facilitation time other than 0.  So every recorded result is a success
    with both times and an empty error text, the count of successes it
    prints is always the count of results, and the null filters of its
    summary remove nothing. *)
Theorem runBenchmark_records_timed_successes (world : World) (samples : Z) :
  let results := Solana.runBenchmark world samples in
  Forall (fun r => Driver.success r = true
                   /\ (exists z, Driver.facilitationMs r = Some z /\ z <> 0%Z)
                   /\ (exists rt, Driver.roundtripMs r = Some rt)
                   /\ Driver.error r = "")
         results
  /\ filter Driver.success results = results
  /\ forall endpoint,
       length (Driver.facilitationTimes results endpoint)
       = length (Driver.facilitatorResults results endpoint)
       /\ length (Driver.roundtripTimes results endpoint)
          = length (Driver.facilitatorResults results endpoint).
Proof.
  cbv zeta.
  assert (Hall : Forall (fun r => Driver.success r = true
                   /\ (exists z, Driver.facilitationMs r = Some z /\ z <> 0%Z)
                   /\ (exists rt, Driver.roundtripMs r = Some rt)
                   /\ Driver.error r = "")
                 (Solana.runBenchmark world samples)).
  { apply Forall_forall. intros r Hr. unfold Solana.runBenchmark in Hr.
    apply rounds_In in Hr as (e & s & _ & _ & -> & Hk).
    apply andb_true_iff in Hk as [Hok Ht]. revert Hok Ht.
    unfold Solana.doFetch. destruct (answer (world e s)) as [[z |] | msg]; cbn;
      try discriminate.
    intros _ Hz. apply negb_true_iff, Z.eqb_neq in Hz. eauto 8. }
  split; [ exact Hall | ].
  rewrite Forall_forall in Hall. split.
  - apply forallb_filter_id, forallb_forall. intros r Hr. now apply Hall.
  - intros endpoint.
    unfold Driver.facilitationTimes, Driver.roundtripTimes, Driver.facilitatorResults.
    assert (Hsub : forall r,
              In r (filter (fun r => String.eqb (Driver.facilitator r) endpoint
                                     && Driver.success r)
                           (Solana.runBenchmark world samples)) ->
              (exists z, Driver.facilitationMs r = Some z)
              /\ (exists rt, Driver.roundtripMs r = Some rt)).
    { intros r Hr. apply filter_In in Hr as [Hr _].
      destruct (Hall r Hr) as (_ & (z & Hz & _) & Hrt & _). eauto. }
    induction (filter _ (Solana.runBenchmark world samples)) as [| r rs IH];
      [ split; reflexivity | ].
    destruct (Hsub r (or_introl eq_refl)) as ((z & Hz) & (rt & Hrt)).
    destruct IH as [IH1 IH2]; [ intros; apply Hsub; now right | ].
    cbn [map Driver.present flat_map]. rewrite Hz, Hrt. cbn [app length].
    unfold Driver.present in IH1, IH2. now rewrite IH1, IH2.
Qed.

(** X25.  The Solana pilot issues one request per endpoint for each of the
    samples 1 to 10 and records them all; when every exchange is one the
    tabular format can carry, the file it writes reads back as the twenty
    results, field by field. *)
Theorem runPilot_file_reads_back (world : World) :
  (forall endpoint sample,
      In endpoint Solana.ENDPOINTS -> (1 <= sample <= 10)%Z ->
      tidy (world endpoint sample) = true) ->
  parseCSV (Driver.writeCsv (Solana.runPilot world)) = map toRow (Solana.runPilot world)
  /\ length (Solana.runPilot world) = 20
  /\ forall r, In r (Solana.runPilot world) <->
       exists endpoint sample,
         In endpoint Solana.ENDPOINTS /\ (1 <= sample <= 10)%Z
         /\ r = Solana.doFetch (world endpoint sample) endpoint sample.
Proof.
  intros Htidy.
  assert (Hin : forall r, In r (Solana.runPilot world) <->
            exists endpoint sample,
              In endpoint Solana.ENDPOINTS /\ (1 <= sample <= 10)%Z
              /\ r = Solana.doFetch (world endpoint sample) endpoint sample).
  { intros r. unfold Solana.runPilot. rewrite rounds_In. unfold Solana.PILOT_SAMPLES.
    split.
    - intros (e & s & He & Hs & Hr & _). exists e, s. repeat split; auto; lia.
    - intros (e & s & He & Hs & Hr). exists e, s. repeat split; auto; lia. }
  split; [ | split; [ | exact Hin ] ].
  - apply rows_of_written_file. apply forallb_forall. intros r Hr.
    apply Hin in Hr as (e & s & He & Hs & ->).
    apply Solana_doFetch_wellFormed; [ now apply Htidy | exact He | ].
    unfold Driver.count. apply andb_true_iff.
    split; [ apply Z.leb_le | apply Z.ltb_lt ]; lia.
  - unfold Solana.runPilot. rewrite rounds_all_length. reflexivity.
Qed.

(** X28.  The Base main study records every result, failures included: three
    per round for each of the sample numbers 1 to [samples]; and when
    every exchange is one the tabular format can carry, the file it writes
    reads back as these results, field by field. *)
Theorem Base_runBenchmark_records_every_result (world : World) (samples : Z) :
  (samples < 2 ^ 53)%Z ->
  (forall endpoint sample,
      In endpoint Base.ENDPOINTS -> (1 <= sample <= samples)%Z ->
      tidy (world endpoint sample) = true) ->
  length (Base.runBenchmark world samples) = (3 * Z.to_nat samples)%nat
  /\ (forall r, In r (Base.runBenchmark world samples) <->
        exists endpoint sample,
          In endpoint Base.ENDPOINTS /\ (1 <= sample <= samples)%Z
          /\ r = Base.doFetch (world endpoint sample) endpoint sample)
  /\ parseCSV (Driver.writeCsv (Base.runBenchmark world samples))
     = map toRow (Base.runBenchmark world samples).
Proof.
  intros Hmax Htidy.
  assert (Hin : forall r, In r (Base.runBenchmark world samples) <->
            exists endpoint sample,
              In endpoint Base.ENDPOINTS /\ (1 <= sample <= samples)%Z
              /\ r = Base.doFetch (world endpoint sample) endpoint sample).
  { intros r. unfold Base.runBenchmark. rewrite rounds_In.
    split.
    - intros (e & s & He & Hs & Hr & _). exists e, s. repeat split; auto; lia.
    - intros (e & s & He & Hs & Hr). exists e, s. repeat split; auto; lia. }
  split; [ | split; [ exact Hin | ] ].
  - unfold Base.runBenchmark. rewrite rounds_all_length.
    change (length Base.ENDPOINTS) with 3%nat. lia.
  - apply rows_of_written_file. apply forallb_forall. intros r Hr.
    apply Hin in Hr as (e & s & He & Hs & ->).
    apply Base_doFetch_wellFormed; [ now apply Htidy | exact He | ].
    unfold Driver.count. apply andb_true_iff.
    split; [ apply Z.leb_le | apply Z.ltb_lt ]; lia.
Qed.

End BenchTheorems.

Section BenchRuns.

Import Str StrFacts Bench BenchFacts.
Local Open Scope string_scope.

Lemma runPilot_file_reads_back_witness :
  @parseCSV float _ (Driver.writeCsv (Solana.runPilot sampleWorld))
  = map toRow (Solana.runPilot sampleWorld).
Proof.
  apply (@runPilot_file_reads_back float _ sampleWorld).
  intros endpoint sample _ _. apply sampleWorld_tidy.
Defined.

Lemma Base_runBenchmark_records_every_result_witness :
  (2 < 2 ^ 53)%Z
  /\ length (Base.runBenchmark sampleWorld 2) = 6
  /\ @parseCSV float _ (Driver.writeCsv (Base.runBenchmark sampleWorld 2))
     = map toRow (Base.runBenchmark sampleWorld 2).
Proof.
  split; [ reflexivity | ].
  destruct (@Base_runBenchmark_records_every_result float _ sampleWorld 2)
    as (Hlen & _ & Hread).
  - reflexivity.
  - intros endpoint sample _ _. apply sampleWorld_tidy.
  - split; [ exact Hlen | exact Hread ].
Defined.

End BenchRuns.

(* ================================================================= *)
(** ** Durations *)

Module DurationFacts.

Import Exact ExactRemainder DurationOnReals.
Local Open Scope R_scope.



End DurationFacts.

Section DurationTheorems.

Import Exact ExactRemainder DurationOnReals DurationFacts.
Local Open Scope R_scope.
Local Open Scope string_scope.


End DurationTheorems.

Section DurationRuns.

Import Binary64 Binary64Remainder.
Local Open Scope string_scope.

(** The same function at binary64: 3 725 000 ms is "1h 2m", 125 000 ms is
    "2m 5s", 999 ms is "0s", and -1 ms is "-1s". *)
Lemma formatDuration_binary64 :
  formatDuration (Z2float 3725000)
  = [ Value (Z2float 1); Text "h "; Value (Z2float 2); Text "m" ]
  /\ formatDuration (Z2float 125000)
     = [ Value (Z2float 2); Text "m "; Value (Z2float 5); Text "s" ]
  /\ formatDuration (Z2float 999) = [ Value (Z2float 0); Text "s" ]
  /\ formatDuration (Z2float (-1)) = [ Value (Z2float (-1)); Text "s" ].
Proof. vm_compute. repeat split. Qed.

End DurationRuns.
